(** * Rose Pine theme generator for Notepad++ (src/main.py)

    A shallow embedding of [main.py] and the properties of its style model,
    colour updater, template builder, configuration loader and writer, and
    style auditor.

    Python values are modelled as follows.
    - [str] is [string]; a character of a [str] is an [ascii], and the
      ordering of [str] is the lexicographic one on character codes.
    - [dict] with string keys is [gmap string _]; [set] is [gset _].
    - [xml.etree.ElementTree.Element] is the record [Element].
    - An exception is a value of [exn]; a call either returns or raises. *)

From Stdlib Require Import Strings.String Strings.Ascii NArith.
From stdpp Require Import base option list sorting gmap strings.
From stdpp Require Import pretty.

Local Open Scope string_scope.
Local Set Warnings "-register-all,-clear-no-such-hyp".

(** ** Python's ordering on [str] *)

Module StrOrder.

Definition le (s t : string) : Prop := String.leb s t = true.
Definition lt (s t : string) : Prop := String.ltb s t = true.

#[global] Instance le_dec s t : Decision (le s t).
Proof. unfold le. apply _. Defined.

#[global] Instance lt_dec s t : Decision (lt s t).
Proof. unfold lt. apply _. Defined.

End StrOrder.

(** ** Exceptions and outcomes *)

(** The exceptions the program can raise.  [ValueError] carries the message
    the program gives it; the others are raised by the interpreter or by a
    library. *)
Inductive exn : Type :=
| ValueError (msg : string)
| TypeError
| AttributeError
| OSError
| YAMLError
| ParseError.

(** A call returns a value or raises.  [Untyped] is the third case of a
    dynamically typed program read through its annotations: the call goes on
    with a value outside the annotated type of a [Style] field (for instance
    [names: [null]] or [fgColor: []] in the configuration).  What the program
    does with such a value afterwards is not modelled. *)
Inductive outcome (A : Type) : Type :=
| Returns (a : A)
| Raises (e : exn)
| Untyped.
Arguments Returns {A} a.
Arguments Raises {A} e.
Arguments Untyped {A}.

#[global] Instance outcome_ret : MRet outcome := λ A a, Returns a.
#[global] Instance outcome_bind : MBind outcome := λ A B f m,
  match m with
  | Returns a => f a
  | Raises e => Raises e
  | Untyped => Untyped
  end.

(** A [for] loop whose body may raise: the first failing element decides. *)
Fixpoint for_each_collect {A B} (body : A → outcome B) (xs : list A)
  : outcome (list B) :=
  match xs with
  | [] => Returns []
  | x :: xs' => b ← body x; bs ← for_each_collect body xs'; Returns (b :: bs)
  end.

(** ** Python values read from the configuration *)

(** The values [yaml.safe_load] builds that the program looks at: [None],
    [str], [list] and [dict] with string keys.  Numbers and booleans are not
    represented. *)
Inductive pyval : Type :=
| PNone
| PStr (s : string)
| PList (l : list pyval)
| PDict (d : gmap string pyval).

Definition py_strs (l : list string) : pyval := PList (PStr <$> l).
Definition py_opt (o : option string) : pyval := from_option PStr PNone o.

(** [bool(v)] *)
Definition truthy (v : pyval) : bool :=
  match v with
  | PNone => false
  | PStr s => negb (String.eqb s "")
  | PList l => negb (bool_decide (l = []))
  | PDict d => negb (bool_decide (dom d = ∅))
  end.

Definition is_None (v : pyval) : bool :=
  match v with PNone => true | _ => false end.

(** [iter(v)]: the characters of a [str], the items of a [list], the keys of
    a [dict]. *)
Definition py_iter (v : pyval) : outcome (list pyval) :=
  match v with
  | PNone => Raises TypeError
  | PStr s => Returns ((λ c, PStr (String c "")) <$> list_ascii_of_string s)
  | PList l => Returns l
  | PDict d => Returns (PStr <$> elements (dom d))
  end.

(** [v.get(key, default)]: only a [dict] has the method. *)
Definition py_get (v : pyval) (key : string) (dflt : pyval) : outcome pyval :=
  match v with
  | PDict d => Returns (default dflt (d !! key))
  | _ => Raises AttributeError
  end.

(** [set(xs)]: the items must be hashable, which [list] and [dict] are not. *)
Definition hashable (v : pyval) : option (option string) :=
  match v with
  | PNone => Some None
  | PStr s => Some (Some s)
  | PList _ | PDict _ => None
  end.

Definition py_set (xs : list pyval) : outcome (gset (option string)) :=
  match mapM hashable xs with
  | Some ks => Returns (list_to_set ks)
  | None => Raises TypeError
  end.

(** [sorted(X)] for a set of [str] and [None].  With fewer than two items
    nothing is compared; otherwise every item is compared with another one,
    and comparing [None] raises [TypeError]. *)
Definition py_sorted (X : gset (option string)) : outcome (list (option string)) :=
  match elements X with
  | [] => Returns []
  | [x] => Returns [x]
  | xs =>
      match mapM id xs with
      | Some l => Returns (Some <$> merge_sort StrOrder.le l)
      | None => Raises TypeError
      end
  end.

(** ** Style model *)

Record Style : Type := mkStyle {
  names : list string;
  fgColor : option string;
  bgColor : option string;
}.

(** [if c and c.startswith("$") is False: raise ValueError(msg)] *)
Definition check_prefix (msg : string) (c : pyval) : outcome unit :=
  if truthy c then
    match c with
    | PStr s => if String.prefix "$" s then Returns () else Raises (ValueError msg)
    | _ => Raises AttributeError
    end
  else Returns ().

(** The values a constructed [Style] holds, read at their annotated types. *)
Definition as_names (l : list (option string)) : outcome (list string) :=
  match mapM id l with
  | Some ns => Returns ns
  | None => Untyped
  end.

Definition as_color (c : pyval) : outcome (option string) :=
  match c with
  | PNone => Returns None
  | PStr s => Returns (Some s)
  | _ => Untyped
  end.

(** [Style(names=.., fgColor=.., bgColor=..)]: the dataclass stores the three
    arguments and runs [__post_init__]. *)
Definition Style_post_init (names_arg fg bg : pyval) : outcome Style :=
  if negb (truthy names_arg) then
    Raises (ValueError "names list cannot be empty")
  else if is_None fg && is_None bg then
    Raises (ValueError "At least one of fgColor or bgColor must be provided")
  else
    _ ← check_prefix "fgColor must start with '$' if provided" fg;
    _ ← check_prefix "bgColor must start with '$' if provided" bg;
    items ← py_iter names_arg;
    X ← py_set items;
    sorted_names ← py_sorted X;
    ns ← as_names sorted_names;
    f ← as_color fg;
    b ← as_color bg;
    Returns (mkStyle ns f b).

(** Construction from arguments of the annotated types. *)
Definition new_Style (ns : list string) (fg bg : option string) : outcome Style :=
  Style_post_init (py_strs ns) (py_opt fg) (py_opt bg).

(** ** XML documents *)

(** [xml.etree.ElementTree.Element]: tag, attribute dictionary, text, tail
    and the child elements in document order. *)
Inductive Element : Type := mkElement {
  tag : string;
  attrib : gmap string string;
  text : option string;
  tail : option string;
  children : list Element;
}.

(** [element.get(key)] *)
Definition get_attr (key : string) (element : Element) : option string :=
  attrib element !! key.

(** [element.set(key, value)] *)
Definition set_attr (key value : string) (element : Element) : Element :=
  mkElement (tag element) (<[key := value]> (attrib element))
            (text element) (tail element) (children element).

Definition with_children (cs : list Element) (element : Element) : Element :=
  mkElement (tag element) (attrib element) (text element) (tail element) cs.

(** [element.findall(t)] and [element.find(t)] for a plain tag name: the
    direct children with that tag, and the first of them. *)
Definition findall (t : string) (element : Element) : list Element :=
  filter (λ c, tag c = t) (children element).

Definition find (t : string) (element : Element) : option Element :=
  head (findall t element).

(** ** Colour updater *)

Definition mismatch_warning (style_name : string) (got : option string) : string :=
  "Style name mismatch: expected `" ++ style_name ++ "` but got `"
    ++ default "None" got ++ "`.".

(** The result is the element after the call and the warnings logged by it. *)
Definition update_fg_bg_color (element : Element) (style_name : string)
    (new_fg_color new_bg_color : option string) : Element * list string :=
  if decide (get_attr "name" element = Some style_name) then
    let element1 :=
      match new_fg_color with
      | Some c => set_attr "fgColor" c element
      | None => element
      end in
    let element2 :=
      match new_bg_color with
      | Some c => set_attr "bgColor" c element1
      | None => element1
      end in
    (element2, [])
  else
    (element, [mismatch_warning style_name (get_attr "name" element)]).

(** ** XML accessors *)

Definition get_lexer_styles (root : Element) : outcome Element :=
  match find "LexerStyles" root with
  | Some lexer_styles => Returns lexer_styles
  | None => Raises (ValueError "LexerStyles element not found")
  end.

Definition get_global_styles (root : Element) : outcome Element :=
  match find "GlobalStyles" root with
  | Some global_styles => Returns global_styles
  | None => Raises (ValueError "GlobalStyles element not found")
  end.

Definition get_lexer_types (lexer_styles : Element) : list Element :=
  findall "LexerType" lexer_styles.

Definition get_words_styles (lexer_type : Element) : list Element :=
  findall "WordsStyle" lexer_type.

Definition get_widget_styles (global_styles : Element) : list Element :=
  findall "WidgetStyle" global_styles.

(** ** Style auditor *)

Definition get_distinct_style_names (lexer_styles : Element)
  : outcome (list (option string)) :=
  let distinct_style_names : gset (option string) :=
    list_to_set (get_attr "name" <$>
                   (get_lexer_types lexer_styles ≫= findall "WordsStyle")) in
  py_sorted distinct_style_names.

Definition get_distinct_missing_style_names (lexer_styles : Element)
    (styles : list Style) : outcome (list (option string)) :=
  existing ← get_distinct_style_names lexer_styles;
  let existing_style_names : gset (option string) := list_to_set existing in
  let config_style_names : gset (option string) :=
    list_to_set (Some <$> (styles ≫= names)) in
  let missing_names := existing_style_names ∖ config_style_names in
  py_sorted missing_names.

(** ** Loops that mutate the document *)

(** [for x in xs: body(s, x)] where the body mutates [s] and logs. *)
Fixpoint for_each {A S} (body : S → A → S * list string) (xs : list A) (s : S)
  : S * list string :=
  match xs with
  | [] => (s, [])
  | x :: xs' =>
      let '(s1, w1) := body s x in
      let '(s2, w2) := for_each body xs' s1 in
      (s2, (w1 ++ w2)%list)
  end.

(** The four nested loops of the template builder work on element objects
    that belong to the document, so a leaf mutated in the loop is mutated in
    the tree.  The model rebuilds the tree along the path to the leaf:
    [in_each t f] runs [f] on every child with tag [t] (the elements
    [findall] returns), [in_first t f] on the first one (the element [find]
    returns); all other children stay as they are. *)
Fixpoint in_each_child (t : string) (f : Element → Element * list string)
    (cs : list Element) : list Element * list string :=
  match cs with
  | [] => ([], [])
  | c :: cs' =>
      let '(c1, w1) := if decide (tag c = t) then f c else (c, []) in
      let '(cs1, w2) := in_each_child t f cs' in
      (c1 :: cs1, (w1 ++ w2)%list)
  end.

Fixpoint in_first_child (t : string) (f : Element → Element * list string)
    (cs : list Element) : list Element * list string :=
  match cs with
  | [] => ([], [])
  | c :: cs' =>
      if decide (tag c = t) then
        let '(c1, w) := f c in (c1 :: cs', w)
      else
        let '(cs1, w) := in_first_child t f cs' in (c :: cs1, w)
  end.

Definition in_each (t : string) (f : Element → Element * list string)
    (parent : Element) : Element * list string :=
  let '(cs, w) := in_each_child t f (children parent) in
  (with_children cs parent, w).

Definition in_first (t : string) (f : Element → Element * list string)
    (parent : Element) : Element * list string :=
  let '(cs, w) := in_first_child t f (children parent) in
  (with_children cs parent, w).

(** The two inner loops: every name of every rule is tried on the leaf. *)
Definition apply_style (leaf : Element) (style : Style) : Element * list string :=
  for_each (λ e name, update_fg_bg_color e name (fgColor style) (bgColor style))
           (names style) leaf.

Definition apply_styles (styles : list Style) (leaf : Element)
  : Element * list string :=
  for_each apply_style styles leaf.

Definition update_lexer_styles (styles : list Style) (root : Element)
  : outcome (Element * list string) :=
  _ ← get_lexer_styles root;
  Returns (in_first "LexerStyles"
             (in_each "LexerType" (in_each "WordsStyle" (apply_styles styles)))
             root).

Definition update_global_styles (styles : list Style) (root : Element)
  : outcome (Element * list string) :=
  _ ← get_global_styles root;
  Returns (in_first "GlobalStyles"
             (in_each "WidgetStyle" (apply_styles styles))
             root).

(** ** Configuration data *)

(** The body of the loader once the file is parsed. *)
Definition styles_of_config (config_data : pyval) : outcome (list Style) :=
  entries ← py_get config_data "styles" (PList []);
  items ← py_iter entries;
  for_each_collect
    (λ data,
       names_arg ← py_get data "names" (PList []);
       fg ← py_get data "fgColor" PNone;
       bg ← py_get data "bgColor" PNone;
       Style_post_init names_arg fg bg)
    items.

(** [dataclasses.asdict(style)] *)
Definition asdict (style : Style) : pyval :=
  PDict (<["names" := py_strs (names style)]>
        (<["fgColor" := py_opt (fgColor style)]>
        (<["bgColor" := py_opt (bgColor style)]> ∅))).

Definition config_of_styles (styles : list Style) : pyval :=
  PDict (<["styles" := PList (asdict <$> styles)]> ∅).

(** ** Files *)

Section IO.

(** The contents of a file, and the library calls that read and write them:
    [ET.parse] and [ElementTree.write] (UTF-8, with declaration, no short
    empty elements), [yaml.safe_load] and [yaml.dump] (sorted keys, indent 2).
    A parser gives [None] on malformed input. *)
Context {bytes : Type}.
Variable ET_parse : bytes → option Element.
Variable ET_write : Element → bytes.
Variable yaml_safe_load : bytes → option pyval.
Variable yaml_dump : pyval → bytes.

(** The state the program acts on: the files by path, and the messages the
    logger has emitted.  A file is identified with the string of its path. *)
Record world : Type := mkWorld {
  files : gmap string bytes;
  log : list string;
}.

Definition IO (A : Type) : Type := world → outcome A * world.

Definition io_ret {A} (a : A) : IO A := λ w, (Returns a, w).

Definition io_bind {A B} (m : IO A) (k : A → IO B) : IO B :=
  λ w, match m w with
       | (Returns a, w1) => k a w1
       | (Raises e, w1) => (Raises e, w1)
       | (Untyped, w1) => (Untyped, w1)
       end.

Definition io_lift {A} (o : outcome A) : IO A := λ w, (o, w).

Definition io_log {A} (r : A * list string) : IO A :=
  λ w, (Returns (fst r), mkWorld (files w) (log w ++ snd r)%list).

Definition read_file (path : string) : IO bytes :=
  λ w, match files w !! path with
       | Some b => (Returns b, w)
       | None => (Raises OSError, w)
       end.

(** A write that succeeds: opening the file and serialising into it raise
    nothing here, and the file gets its new content at once.  What a run
    does when the write itself fails is outside this model. *)
Definition write_file (path : string) (b : bytes) : IO unit :=
  λ w, (Returns (), mkWorld (<[path := b]> (files w)) (log w)).

Definition parse_xml_file (file_path : string) : IO Element :=
  io_bind (read_file file_path) (λ b,
  match ET_parse b with
  | Some root => io_ret root
  | None => io_lift (Raises ParseError)
  end).

Definition load_styles_from_config (config_file_path : string) : IO (list Style) :=
  io_bind (read_file config_file_path) (λ b,
  match yaml_safe_load b with
  | Some config_data => io_lift (styles_of_config config_data)
  | None => io_lift (Raises YAMLError)
  end).

Definition format_config_file (config_file_path : string) (styles : list Style)
  : IO unit :=
  write_file config_file_path (yaml_dump (config_of_styles styles)).

Definition create_or_update_template
    (source_file_path target_file_path config_file_path : string) : IO unit :=
  io_bind (load_styles_from_config config_file_path) (λ styles,
  io_bind (parse_xml_file source_file_path) (λ root,
  io_bind (io_lift (update_lexer_styles styles root)) (λ r1,
  io_bind (io_log r1) (λ root1,
  io_bind (io_lift (update_global_styles styles root1)) (λ r2,
  io_bind (io_log r2) (λ root2,
  write_file target_file_path (ET_write root2))))))).

End IO.

(** ** Notions used to state the properties *)

(** A present colour carries the [$] prefix of a palette variable. *)
Definition color_prefixed (c : option string) : Prop :=
  ∀ s, c = Some s → String.prefix "$" s = true.

(** A rule as the specification wants it: some name, some colour, every
    present colour prefixed. *)
Definition valid_rule (style : Style) : Prop :=
  names style ≠ [] ∧
  (is_Some (fgColor style) ∨ is_Some (bgColor style)) ∧
  color_prefixed (fgColor style) ∧ color_prefixed (bgColor style).

(** [l] lists the strings satisfying [P] in strictly ascending order, hence
    without duplicates. *)
Definition sorted_distinct (l : list string) (P : string → Prop) : Prop :=
  StronglySorted StrOrder.lt l ∧ ∀ s, s ∈ l ↔ P s.

(** The two colour attributes a rule can set, with the rule field each one
    is taken from. *)
Inductive channel : Type := Fg | Bg.

Definition channel_key (ch : channel) : string :=
  match ch with Fg => "fgColor" | Bg => "bgColor" end.

Definition channel_color (ch : channel) (style : Style) : option string :=
  match ch with Fg => fgColor style | Bg => bgColor style end.

(** [e'] is [e] except perhaps for its two colour attributes. *)
Definition same_but_colors (e e' : Element) : Prop :=
  tag e' = tag e ∧ text e' = text e ∧ tail e' = tail e ∧
  children e' = children e ∧
  ∀ k, k ≠ "fgColor" → k ≠ "bgColor" → get_attr k e' = get_attr k e.

(** No name of any rule is the leaf's name. *)
Definition unmatched (styles : list Style) (leaf : Element) : Prop :=
  ∀ style n, style ∈ styles → n ∈ names style → get_attr "name" leaf ≠ Some n.

(** Positions in a document.  [first_at t cs i c]: [c] is the first element
    of [cs] with tag [t], and it is at index [i]. *)
Definition first_at (t : string) (cs : list Element) (i : nat) (c : Element)
  : Prop :=
  cs !! i = Some c ∧ tag c = t ∧
  ∀ j c', j < i → cs !! j = Some c' → tag c' ≠ t.

Definition child_at (t : string) (parent : Element) (i : nat) (c : Element)
  : Prop :=
  children parent !! i = Some c ∧ tag c = t.

(** The element reached from [e] by taking the children at the indices of
    [path] in turn. *)
Fixpoint descend (path : list nat) (e : Element) : option Element :=
  match path with
  | [] => Some e
  | i :: path' => children e !! i ≫= descend path'
  end.

(** The leaves the builder visits: the [WordsStyle] children of the
    [LexerType] children of the first [LexerStyles], and the [WidgetStyle]
    children of the first [GlobalStyles]. *)
Definition words_style_at (root : Element) (path : list nat) (leaf : Element)
  : Prop :=
  ∃ i j k lexer_styles lexer_type,
    path = [i; j; k] ∧
    first_at "LexerStyles" (children root) i lexer_styles ∧
    child_at "LexerType" lexer_styles j lexer_type ∧
    child_at "WordsStyle" lexer_type k leaf.

Definition widget_style_at (root : Element) (path : list nat) (leaf : Element)
  : Prop :=
  ∃ i k global_styles,
    path = [i; k] ∧
    first_at "GlobalStyles" (children root) i global_styles ∧
    child_at "WidgetStyle" global_styles k leaf.

(** ** Sample files *)

(** A small instance of the file contents, used for the examples: a file
    holds a document, a configuration value, or neither, and each parser
    accepts its own kind only. *)
Module Sample.

Inductive file : Type :=
| XmlFile (root : Element)
| YamlFile (data : pyval)
| OtherFile.

Definition ET_parse (f : file) : option Element :=
  match f with XmlFile root => Some root | _ => None end.

Definition ET_write (root : Element) : file := XmlFile root.

Definition yaml_safe_load (f : file) : option pyval :=
  match f with YamlFile data => Some data | _ => None end.

Definition yaml_dump (data : pyval) : file := YamlFile data.

Definition leaf (t name fg bg : string) : Element :=
  mkElement t (list_to_map [("name", name); ("fgColor", fg); ("bgColor", bg)])
            None None [].

Definition node (t : string) (cs : list Element) : Element :=
  mkElement t ∅ None None cs.

Definition keyword : Element := leaf "WordsStyle" "KEYWORD" "0000FF" "FFFFFF".
Definition comment : Element := leaf "WordsStyle" "COMMENT" "008000" "FFFFFF".
Definition caret : Element := leaf "WidgetStyle" "Caret colour" "8000FF" "FFFFFF".
Definition default_style : Element :=
  leaf "WidgetStyle" "Default Style" "000000" "FFFFFF".

Definition lexer_styles : Element :=
  node "LexerStyles" [node "LexerType" [keyword; comment]].

Definition global_styles : Element :=
  node "GlobalStyles" [default_style; caret].

Definition stylers : Element := node "NotepadPlus" [lexer_styles; global_styles].

(** A source document without its [GlobalStyles] section. *)
Definition stylers_no_global : Element := node "NotepadPlus" [lexer_styles].

Definition rules : list Style :=
  [ mkStyle ["KEYWORD"] (Some "$iris") (Some "$base");
    mkStyle ["Default Style"; "KEYWORD"] (Some "$pine") None ].

Definition files_with (source : Element) : gmap string file :=
  list_to_map [("stylers.xml", XmlFile source);
               ("config.yaml", YamlFile (config_of_styles rules))].

Definition world_with (source : Element) : world := mkWorld (files_with source) [].

End Sample.

(** ** Command dispatcher *)

(** The members of the [Command] enumeration. *)
Module Command.
Inductive t : Type :=
| create_or_update_template
| build_theme_variants
| format_config_file
| get_distinct_style_names
| get_distinct_missing_style_names.
End Command.

(** The parsed command line: [args.command], [args.source], [args.target]
    and [args.config]. *)
Module Namespace.
Record t : Type := mk {
  command : Command.t;
  source : string;
  target : string;
  config : string;
}.
End Namespace.

(** [str(name)] as [print] shows it. *)
Definition py_str (name : option string) : string := default "None" name.

(** The lines the two reporting commands print: a title, the names, and the
    count. *)
Definition report (title count_label : string) (found : list (option string))
  : list string :=
  title :: ((py_str <$> found) ++ [String.append count_label (pretty (length found))])%list.

Section Dispatcher.

(** [subprocess.run(argv, check=True)] is an action on the files that the
    program does not look into. *)
Context {bytes : Type}.
Variable ET_parse : bytes → option Element.
Variable ET_write : Element → bytes.
Variable yaml_safe_load : bytes → option pyval.
Variable yaml_dump : pyval → bytes.
Variable subprocess_run : list string → @IO bytes unit.

(** [main] after the command line is parsed.  The result is what the command
    prints; every [print] comes after the last call that can raise. *)
Definition main (args : Namespace.t) : @IO bytes (list string) :=
  match Namespace.command args with
  | Command.create_or_update_template =>
      io_bind (create_or_update_template ET_parse ET_write yaml_safe_load
                 (Namespace.source args) (Namespace.target args)
                 (Namespace.config args)) (λ _,
      io_ret [])
  | Command.build_theme_variants =>
      io_bind (subprocess_run
                 ["npx"; "@rose-pine/build"; "-t"; Namespace.target args;
                  "-o"; "."; "-f"; "hex-ns"]) (λ _,
      io_ret [])
  | Command.format_config_file =>
      io_bind (load_styles_from_config yaml_safe_load (Namespace.config args))
        (λ styles,
      io_bind (format_config_file yaml_dump (Namespace.config args) styles)
        (λ _,
      io_ret []))
  | Command.get_distinct_style_names =>
      io_bind (parse_xml_file ET_parse (Namespace.source args)) (λ root,
      io_bind (io_lift (get_lexer_styles root)) (λ lexer_styles,
      io_bind (io_lift (get_distinct_style_names lexer_styles))
        (λ distinct_style_names,
      io_ret (report "Distinct style names:" "Distinct style count: "
                distinct_style_names))))
  | Command.get_distinct_missing_style_names =>
      io_bind (load_styles_from_config yaml_safe_load (Namespace.config args))
        (λ styles,
      io_bind (parse_xml_file ET_parse (Namespace.source args)) (λ root,
      io_bind (io_lift (get_lexer_styles root)) (λ lexer_styles,
      io_bind (io_lift (get_distinct_missing_style_names lexer_styles styles))
        (λ missing_style_names,
      io_ret (report "Missing style names:" "Missing style count: "
                missing_style_names)))))
  end.

End Dispatcher.

(** ** Further notions *)

(** A present colour the constructor lets through: empty, or prefixed. *)
Definition color_accepted (c : option string) : Prop :=
  ∀ s, c = Some s → s = "" ∨ String.prefix "$" s = true.

(** What holds of every rule the constructor returns. *)
Definition constructed (style : Style) : Prop :=
  names style ≠ [] ∧ StronglySorted StrOrder.lt (names style) ∧
  (is_Some (fgColor style) ∨ is_Some (bgColor style)) ∧
  color_accepted (fgColor style) ∧ color_accepted (bgColor style).

(** The document with the two colour attributes erased from every element. *)
Fixpoint uncolored (e : Element) : Element :=
  mkElement (tag e) (delete "fgColor" (delete "bgColor" (attrib e)))
            (text e) (tail e) (uncolored <$> children e).

(** The names the rules try on a leaf, in the order of the loops. *)
Definition candidate_names (styles : list Style) : list string :=
  styles ≫= names.

(** The colour of channel [ch] carried by the last rule that names [n]. *)
Definition last_color (ch : channel) (n : string) (styles : list Style)
  : option string :=
  last (omap (λ style, if decide (n ∈ names style)
                       then channel_color ch style else None) styles).

(** ** More sample files *)

Module Sample2.

(** A document with a second [LexerStyles] section after the two regular
    sections. *)
Definition stylers_twice : Element :=
  Sample.node "NotepadPlus"
    [Sample.lexer_styles; Sample.global_styles; Sample.lexer_styles].

(** A configuration without rules beside the regular document, and a
    directory without a configuration. *)
Definition world_no_rules : @world Sample.file :=
  mkWorld (list_to_map [("stylers.xml", Sample.XmlFile Sample.stylers);
                        ("config.yaml", Sample.YamlFile (PDict ∅))]) [].

Definition world_no_config : @world Sample.file :=
  mkWorld (list_to_map [("stylers.xml", Sample.XmlFile Sample.stylers)]) [].

(** A configuration as a user may write it: names unsorted and repeated. *)
Definition world_unformatted : @world Sample.file :=
  mkWorld (list_to_map
             [("config.yaml",
               Sample.YamlFile
                 (PDict {["styles" :=
                            PList [PDict (<["names" := py_strs ["b"; "a"; "b"]]>
                                            {["fgColor" := PStr "$iris"]})]]}))])
          [].

(** An external tool that does nothing. *)
Definition no_process (argv : list string) : @IO Sample.file unit := io_ret ().

Definition args (command : Command.t) : Namespace.t :=
  Namespace.mk command "stylers.xml" "template.xml" "config.yaml".

End Sample2.

(** The children after a pass, without the log: [g] applied to the first
    child with tag [t], and to every child with tag [t]. *)
Fixpoint map_first (t : string) (g : Element → Element) (cs : list Element)
  : list Element :=
  match cs with
  | [] => []
  | c :: cs' => if decide (tag c = t) then g c :: cs' else c :: map_first t g cs'
  end.

Definition map_each (t : string) (g : Element → Element) (cs : list Element)
  : list Element :=
  (λ c, if decide (tag c = t) then g c else c) <$> cs.

(** ** Notions for the audit, the whole document and typed configurations *)

(** The leaves the audit looks at: the [WordsStyle] children of the
    [LexerType] children of the section. *)
Definition audited (lexer_styles leaf : Element) : Prop :=
  ∃ j k lexer_type,
    child_at "LexerType" lexer_styles j lexer_type ∧
    child_at "WordsStyle" lexer_type k leaf.

(** [g] gives every element no rule names, wherever it sits below its
    argument, the same tag and the same attributes at the same place. *)
Definition keeps_unmatched (styles : list Style) (g : Element → Element)
  : Prop :=
  ∀ c path e,
    descend path c = Some e → unmatched styles e →
    ∃ e', descend path (g c) = Some e' ∧ tag e' = tag e ∧ attrib e' = attrib e.

(** Values of the annotated types in a configuration record: a colour that
    is null (or absent) or a string, and names that are absent or null, a
    string (read as its characters), a sequence of strings, or a mapping
    with string keys (read as its keys). *)
Definition str_or_None (c : pyval) : Prop := c = PNone ∨ ∃ s, c = PStr s.

Definition names_of_strings (names_arg : pyval) : Prop :=
  names_arg = PNone ∨ (∃ s, names_arg = PStr s) ∨
  (∃ l, names_arg = py_strs l) ∨ ∃ d, names_arg = PDict d.

Definition typed_record (item : pyval) : Prop :=
  ∀ r, item = PDict r →
    names_of_strings (default (PList []) (r !! "names")) ∧
    str_or_None (default PNone (r !! "fgColor")) ∧
    str_or_None (default PNone (r !! "bgColor")).

(** [item] is one of the records under [styles] in [data]. *)
Definition record_of (data item : pyval) : Prop :=
  ∃ d items,
    data = PDict d ∧
    py_iter (default (PList []) (d !! "styles")) = Returns items ∧
    item ∈ items.

(** * Properties *)

(** ** The ordering on [str] is a strict total order *)

Module StrOrderFacts.
Import StrOrder.

Lemma compare_refl s : String.compare s s = Eq.
Proof.
  induction s as [|a s IH]; simpl; [done|].
  unfold Ascii.compare. by rewrite N.compare_refl.
Qed.

Lemma compare_Eq s t : String.compare s t = Eq ↔ s = t.
Proof.
  split; [apply String.compare_eq_iff|intros ->; apply compare_refl].
Qed.

Lemma compare_Lt_trans s t u :
  String.compare s t = Lt → String.compare t u = Lt → String.compare s u = Lt.
Proof.
  revert t u. induction s as [|a s IH]; intros [|b t] [|c u]; simpl; try done.
  unfold Ascii.compare.
  destruct (N.compare_spec (N_of_ascii a) (N_of_ascii b)) as [Hab|Hab|Hab];
    destruct (N.compare_spec (N_of_ascii b) (N_of_ascii c)) as [Hbc|Hbc|Hbc];
    try done; intros H1 H2.
  - rewrite Hab, Hbc, N.compare_refl. eauto.
  - rewrite Hab. by apply N.compare_lt_iff in Hbc as ->.
  - rewrite <- Hbc. by apply N.compare_lt_iff in Hab as ->.
  - assert (N_of_ascii a < N_of_ascii c)%N as Hac by lia.
    by apply N.compare_lt_iff in Hac as ->.
Qed.

Lemma le_lt_or_eq s t : le s t ↔ lt s t ∨ s = t.
Proof.
  unfold lt, le, String.ltb, String.leb.
  destruct (String.compare s t) eqn:E.
  - apply compare_Eq in E. naive_solver.
  - naive_solver.
  - split; [done|]. intros [?| ->]; [done|]. by rewrite compare_refl in E.
Qed.

Lemma lt_irrefl s : ¬ lt s s.
Proof. unfold lt, String.ltb. by rewrite compare_refl. Qed.

#[global] Instance lt_trans : Transitive lt.
Proof.
  intros s t u. unfold lt, String.ltb.
  destruct (String.compare s t) eqn:E1; try done.
  destruct (String.compare t u) eqn:E2; try done.
  by rewrite (compare_Lt_trans _ _ _ E1 E2).
Qed.

#[global] Instance lt_antisymm : AntiSymm (=) lt.
Proof. intros s t H1 H2. destruct (lt_irrefl s). by etrans. Qed.

#[global] Instance le_trans : Transitive le.
Proof.
  intros s t u. rewrite !le_lt_or_eq.
  intros [H1| ->] [H2| ->]; eauto. left. by etrans.
Qed.

#[global] Instance le_total : Total le.
Proof. intros s t. apply String.leb_total. Qed.

(** A list sorted by [le] without duplicates is strictly ascending. *)
Lemma StronglySorted_le_NoDup l :
  StronglySorted le l → NoDup l → StronglySorted lt l.
Proof.
  induction 1 as [|x l Hl IH Hx]; intros Hnd; [constructor|].
  apply NoDup_cons in Hnd as [Hx' Hnd]. constructor; [by apply IH|].
  apply Forall_forall. intros y Hy.
  rewrite Forall_forall in Hx.
  destruct (proj1 (le_lt_or_eq x y) (Hx y Hy)) as [?|Heq]; [done|].
  subst y. by destruct Hx'.
Qed.

(** A strictly ascending list has no duplicates, and is determined by its
    elements. *)
Lemma StronglySorted_lt_NoDup l : StronglySorted lt l → NoDup l.
Proof.
  induction 1 as [|x l Hl IH Hx]; constructor; [|done].
  intros Hin. rewrite Forall_forall in Hx. by apply Hx, lt_irrefl in Hin.
Qed.

Lemma StronglySorted_lt_unique l1 l2 :
  StronglySorted lt l1 → StronglySorted lt l2 →
  (∀ s, s ∈ l1 ↔ s ∈ l2) → l1 = l2.
Proof.
  intros H1 H2 Heq. apply (StronglySorted_unique lt); [done..|].
  apply NoDup_Permutation; auto using StronglySorted_lt_NoDup.
Qed.

End StrOrderFacts.

(** ** [sorted] on a set of strings *)

Section py_sorted_facts.
Import StrOrder StrOrderFacts.

Lemma options_all_Some (xs : list (option string)) :
  None ∉ xs → ∃ l, xs = Some <$> l.
Proof.
  induction xs as [|[s|] xs IH]; intros Hn.
  - by exists [].
  - destruct IH as [l ->]; [by intros ?; apply Hn; right|]. by exists (s :: l).
  - destruct Hn. by left.
Qed.

Lemma merge_sort_strs (l : list string) :
  NoDup l →
  StronglySorted lt (merge_sort le l) ∧ ∀ s, s ∈ merge_sort le l ↔ s ∈ l.
Proof.
  intros Hnd. split.
  - apply StronglySorted_le_NoDup; [apply StronglySorted_merge_sort; apply _|].
    by rewrite merge_sort_Permutation.
  - intros s. by rewrite merge_sort_Permutation.
Qed.

(** On a set without [None], [sorted] returns the strictly ascending list of
    its elements. *)
Lemma py_sorted_strs (X : gset (option string)) :
  None ∉ X →
  ∃ l, py_sorted X = Returns (Some <$> l) ∧ StronglySorted lt l ∧
       ∀ s, s ∈ l ↔ Some s ∈ X.
Proof.
  intros Hn.
  destruct (options_all_Some (elements X)) as [l0 Hl0];
    [by rewrite elem_of_elements|].
  assert (NoDup l0) as Hnd.
  { apply (NoDup_fmap_1 Some). rewrite <- Hl0. apply NoDup_elements. }
  destruct (merge_sort_strs l0 Hnd) as [Hs Hm].
  exists (merge_sort le l0). split; [|split; [done|]].
  - unfold py_sorted. rewrite Hl0.
    destruct l0 as [|a [|b l0]]; [done..|].
    rewrite fmap_cons, (fmap_cons _ b).
    change (Some a :: Some b :: (Some <$> l0)) with (Some <$> (a :: b :: l0)).
    by rewrite mapM_fmap_Some.
  - intros s. rewrite Hm, <- elem_of_elements, Hl0.
    by rewrite (list_elem_of_fmap_inj Some).
Qed.

End py_sorted_facts.

(** ** Style model *)

Section Style_facts.
Import StrOrder StrOrderFacts.

Lemma check_prefix_prefixed msg c :
  color_prefixed c → check_prefix msg (py_opt c) = Returns ().
Proof.
  intros Hc. destruct c as [s|]; [|done]. specialize (Hc s eq_refl).
  unfold check_prefix. destruct s; [done|]. cbn -[String.prefix]. by rewrite Hc.
Qed.

Lemma check_prefix_unprefixed msg s :
  s ≠ "" → String.prefix "$" s = false →
  check_prefix msg (PStr s) = Raises (ValueError msg).
Proof.
  intros Hs Hp. unfold check_prefix. destruct s; [done|].
  cbn -[String.prefix]. by rewrite Hp.
Qed.

Lemma check_prefix_py_opt msg c :
  check_prefix msg (py_opt c) = Returns () ∨
  check_prefix msg (py_opt c) = Raises (ValueError msg).
Proof.
  destruct c as [s|]; [|by left]. unfold check_prefix.
  destruct s; [by left|]. cbn -[String.prefix].
  destruct (String.prefix _ _); auto.
Qed.

Lemma mapM_hashable_strs (ns : list string) :
  mapM hashable (PStr <$> ns) = Some (Some <$> ns).
Proof. apply mapM_Some_2, Forall2_fmap. induction ns; by constructor. Qed.

Lemma as_color_py_opt c : as_color (py_opt c) = Returns c.
Proof. by destruct c. Qed.

(** Once the checks pass, the constructor stores the colours as given and
    the names sorted and without duplicates. *)
Lemma new_Style_checked ns fg bg :
  ns ≠ [] → is_Some fg ∨ is_Some bg →
  check_prefix "fgColor must start with '$' if provided" (py_opt fg) = Returns () →
  check_prefix "bgColor must start with '$' if provided" (py_opt bg) = Returns () →
  ∃ l, new_Style ns fg bg = Returns (mkStyle l fg bg) ∧
       sorted_distinct l (λ s, s ∈ ns).
Proof.
  intros Hns Hc Hfg Hbg.
  destruct (py_sorted_strs (list_to_set (Some <$> ns))) as (l & Hl & Hs & Hm).
  { rewrite elem_of_list_to_set, list_elem_of_fmap. by intros (? & ? & ?). }
  exists l. split.
  - unfold new_Style, Style_post_init.
    assert (truthy (py_strs ns) = true) as -> by by destruct ns.
    assert (is_None (py_opt fg) && is_None (py_opt bg) = false) as ->.
    { by destruct Hc as [[? ->]|[? ->]]; [|destruct fg]. }
    simpl. rewrite Hfg, Hbg. simpl.
    unfold py_set. rewrite mapM_hashable_strs. simpl. rewrite Hl. simpl.
    unfold as_names. rewrite mapM_fmap_Some by done. simpl.
    by rewrite !as_color_py_opt.
  - split; [done|]. intros s.
    by rewrite Hm, elem_of_list_to_set, (list_elem_of_fmap_inj Some).
Qed.

(** The three rejections of the constructor. *)
Lemma new_Style_no_names fg bg :
  new_Style [] fg bg = Raises (ValueError "names list cannot be empty").
Proof. done. Qed.

Lemma new_Style_no_color ns :
  ns ≠ [] →
  new_Style ns None None
  = Raises (ValueError "At least one of fgColor or bgColor must be provided").
Proof. intros Hns. unfold new_Style, Style_post_init. by destruct ns. Qed.

Lemma new_Style_unprefixed ns fg bg s :
  fg = Some s ∨ bg = Some s → s ≠ "" → String.prefix "$" s = false →
  ∃ msg, new_Style ns fg bg = Raises (ValueError msg).
Proof.
  intros Hc Hs Hp. destruct ns as [|n ns]; [by eexists|].
  unfold new_Style, Style_post_init.
  assert (truthy (py_strs (n :: ns)) = true) as -> by done.
  assert (is_None (py_opt fg) && is_None (py_opt bg) = false) as ->.
  { by destruct Hc as [->| ->]; [|destruct fg]. }
  cbn [negb]. cbv iota.
  destruct Hc as [->| ->].
  - simpl py_opt. rewrite check_prefix_unprefixed by done. by eexists.
  - simpl py_opt. rewrite (check_prefix_unprefixed _ s) by done.
    destruct (check_prefix_py_opt "fgColor must start with '$' if provided" fg)
      as [-> | ->]; by eexists.
Qed.

End Style_facts.

(** ** Colour updater *)

Section update_facts.

Lemma update_mismatch e n fg bg :
  get_attr "name" e ≠ Some n →
  update_fg_bg_color e n fg bg = (e, [mismatch_warning n (get_attr "name" e)]).
Proof. intros Hne. unfold update_fg_bg_color. by rewrite decide_False. Qed.

Lemma update_match e n fg bg :
  get_attr "name" e = Some n →
  update_fg_bg_color e n fg bg
  = (from_option (λ c, set_attr "bgColor" c) id bg
       (from_option (λ c, set_attr "fgColor" c) id fg e), []).
Proof.
  intros He. unfold update_fg_bg_color. rewrite decide_True by done.
  by destruct fg, bg.
Qed.

Lemma get_set_attr k k' v e :
  get_attr k (set_attr k' v e) = if decide (k' = k) then Some v else get_attr k e.
Proof. unfold get_attr, set_attr. simpl. apply lookup_insert. Qed.

Lemma same_but_colors_refl e : same_but_colors e e.
Proof. by repeat split. Qed.

Lemma same_but_colors_trans e1 e2 e3 :
  same_but_colors e1 e2 → same_but_colors e2 e3 → same_but_colors e1 e3.
Proof.
  intros (?&?&?&?&Hk1) (?&?&?&?&Hk2). repeat split; try congruence.
  intros k ??. rewrite Hk2, Hk1; done.
Qed.

Lemma same_but_colors_set_attr ch c e :
  same_but_colors e (set_attr (channel_key ch) c e).
Proof.
  repeat split. intros k ??. rewrite get_set_attr, decide_False; [done|].
  by destruct ch; simpl; intros <-.
Qed.

(** Whatever the arguments, a call changes nothing but the colours. *)
Lemma update_frame e n fg bg :
  same_but_colors e (update_fg_bg_color e n fg bg).1.
Proof.
  destruct (decide (get_attr "name" e = Some n)) as [He|He].
  - rewrite update_match by done. simpl.
    eapply same_but_colors_trans with (from_option _ id fg e).
    + destruct fg; [apply (same_but_colors_set_attr Fg)|apply same_but_colors_refl].
    + destruct bg; [apply (same_but_colors_set_attr Bg)|apply same_but_colors_refl].
  - rewrite update_mismatch by done. apply same_but_colors_refl.
Qed.

Lemma same_but_colors_name e e' :
  same_but_colors e e' → get_attr "name" e' = get_attr "name" e.
Proof. intros (?&?&?&?&H). by apply H. Qed.

(** The value of a colour attribute after a call. *)
Lemma update_channel ch e n fg bg :
  get_attr (channel_key ch) (update_fg_bg_color e n fg bg).1
  = if decide (get_attr "name" e = Some n)
    then from_option Some (get_attr (channel_key ch) e)
                     (match ch with Fg => fg | Bg => bg end)
    else get_attr (channel_key ch) e.
Proof.
  case_decide as He.
  - rewrite update_match by done. simpl.
    destruct ch, fg, bg; simpl; rewrite ?get_set_attr; by repeat case_decide.
  - by rewrite update_mismatch.
Qed.

End update_facts.

(** ** The loops over rules and names *)

Section loop_facts.

Lemma for_each_cons {A S} (body : S → A → S * list string) x xs s :
  (for_each body (x :: xs) s).1 = (for_each body xs (body s x).1).1.
Proof.
  cbn [for_each]. destruct (body s x) as [s1 w1]. cbn [fst].
  by destruct (for_each body xs s1).
Qed.

Lemma for_each_app {A S} (body : S → A → S * list string) xs ys s :
  (for_each body (xs ++ ys) s).1 = (for_each body ys (for_each body xs s).1).1.
Proof.
  revert s. induction xs as [|x xs IH]; intros s; [done|].
  by rewrite <- app_comm_cons, !for_each_cons, IH.
Qed.

(** A property kept by every round of the body holds after the loop. *)
Lemma for_each_invariant {A S} (body : S → A → S * list string) (P : S → Prop) xs s :
  (∀ s' x, x ∈ xs → P s' → P (body s' x).1) → P s → P (for_each body xs s).1.
Proof.
  revert s. induction xs as [|x xs IH]; intros s Hbody Hs; [done|].
  rewrite for_each_cons. apply IH.
  - intros s' y Hy. apply Hbody. by right.
  - apply Hbody; [by left|done].
Qed.

Lemma apply_style_frame leaf style :
  same_but_colors leaf (apply_style leaf style).1.
Proof.
  apply (for_each_invariant _ (same_but_colors leaf));
    [|apply same_but_colors_refl].
  intros e n _ He. eapply same_but_colors_trans; [done|apply update_frame].
Qed.

Lemma apply_styles_frame styles leaf :
  same_but_colors leaf (apply_styles styles leaf).1.
Proof.
  apply (for_each_invariant _ (same_but_colors leaf));
    [|apply same_but_colors_refl].
  intros e n _ He. eapply same_but_colors_trans; [done|apply apply_style_frame].
Qed.

(** A leaf no rule names comes out of the loops as it went in. *)
Lemma apply_styles_unmatched styles leaf :
  unmatched styles leaf → (apply_styles styles leaf).1 = leaf.
Proof.
  intros Hun. apply (for_each_invariant _ (λ e, e = leaf)); [|done].
  intros e style Hstyle ->.
  apply (for_each_invariant _ (λ e, e = leaf)); [|done].
  intros e n Hn ->. rewrite update_mismatch; [done|]. by eapply Hun.
Qed.

(** One rule: the colour is overlaid when the rule names the leaf. *)
Lemma apply_names_channel ch fg bg n ns leaf :
  get_attr "name" leaf = Some n →
  get_attr (channel_key ch)
    (for_each (λ e name, update_fg_bg_color e name fg bg) ns leaf).1
  = if decide (n ∈ ns)
    then from_option Some (get_attr (channel_key ch) leaf)
                     (match ch with Fg => fg | Bg => bg end)
    else get_attr (channel_key ch) leaf.
Proof.
  revert leaf. induction ns as [|x ns IH]; intros leaf Hname.
  { rewrite decide_False; [done|]. apply not_elem_of_nil. }
  rewrite for_each_cons, IH, update_channel, Hname.
  2:{ rewrite (same_but_colors_name leaf); [done|apply update_frame]. }
  destruct (decide (x = n)) as [->|Hx].
  - rewrite (decide_True (P := Some n = Some n)) by done.
    rewrite (decide_True (P := n ∈ n :: ns)) by (by left).
    case_decide; [|done]. by destruct ch, fg, bg.
  - rewrite (decide_False (P := Some n = Some x)) by congruence.
    apply decide_ext. rewrite elem_of_cons. split; [by right|by intros [?|?]].
Qed.

Lemma apply_style_channel ch style n leaf :
  get_attr "name" leaf = Some n →
  get_attr (channel_key ch) (apply_style leaf style).1
  = if decide (n ∈ names style)
    then from_option Some (get_attr (channel_key ch) leaf)
                     (channel_color ch style)
    else get_attr (channel_key ch) leaf.
Proof.
  intros Hname. unfold apply_style.
  rewrite (apply_names_channel ch _ _ n) by done. by destruct ch.
Qed.

Lemma apply_styles_cons style styles leaf :
  (apply_styles (style :: styles) leaf).1
  = (apply_styles styles (apply_style leaf style).1).1.
Proof. apply for_each_cons. Qed.

Lemma apply_styles_app pre post leaf :
  (apply_styles (pre ++ post) leaf).1
  = (apply_styles post (apply_styles pre leaf).1).1.
Proof. apply for_each_app. Qed.

(** Rules that name the leaf but carry no colour for the channel leave the
    attribute as it is. *)
Lemma apply_styles_channel_kept ch styles n leaf :
  get_attr "name" leaf = Some n →
  (∀ style, style ∈ styles → n ∈ names style → channel_color ch style = None) →
  get_attr (channel_key ch) (apply_styles styles leaf).1
  = get_attr (channel_key ch) leaf.
Proof.
  revert leaf. induction styles as [|style styles IH]; intros leaf Hname Hnone;
    [done|].
  rewrite apply_styles_cons, IH.
  - rewrite (apply_style_channel ch style n) by done.
    case_decide as Hn; [|done]. rewrite (Hnone style); [done|by left|done].
  - rewrite (same_but_colors_name leaf); [done|apply apply_style_frame].
  - intros style' ?. apply Hnone. by right.
Qed.

(** The last rule that names the leaf and carries a colour decides. *)
Lemma apply_styles_channel_last ch pre style post n c leaf :
  get_attr "name" leaf = Some n →
  n ∈ names style → channel_color ch style = Some c →
  (∀ style', style' ∈ post → n ∈ names style' → channel_color ch style' = None) →
  get_attr (channel_key ch) (apply_styles (pre ++ style :: post) leaf).1 = Some c.
Proof.
  intros Hname Hn Hc Hpost.
  assert (get_attr "name" (apply_styles pre leaf).1 = Some n) as Hname1.
  { rewrite (same_but_colors_name leaf); [done|apply apply_styles_frame]. }
  rewrite apply_styles_app, apply_styles_cons.
  rewrite (apply_styles_channel_kept ch post n); [| |done].
  - rewrite (apply_style_channel ch style n) by done.
    rewrite decide_True by done. by rewrite Hc.
  - rewrite (same_but_colors_name (apply_styles pre leaf).1);
      [done|apply apply_style_frame].
Qed.

End loop_facts.

(** ** Mutating leaves inside the document *)

Section tree_facts.

Lemma find_first_at t e c :
  find t e = Some c ↔ ∃ i, first_at t (children e) i c.
Proof.
  unfold find, findall. generalize (children e). intros cs.
  induction cs as [|c0 cs IH].
  { split; [done|]. by intros (i & ? & _). }
  rewrite filter_cons. destruct (decide (tag c0 = t)) as [Ht|Ht].
  - simpl. split.
    + intros [= ->]. exists 0. repeat split; [done|]. intros; lia.
    + intros ([|i] & Hi & _ & Hfirst).
      * by injection Hi as ->.
      * by destruct (Hfirst 0 c0); [lia|..].
  - rewrite IH. split.
    + intros (i & Hi & Hc & Hfirst). exists (S i). repeat split; [done..|].
      intros [|j] c' Hj Hc'; [by injection Hc' as <-|].
      apply (Hfirst j); [lia|done].
    + intros ([|i] & Hi & Hc & Hfirst).
      * injection Hi as ->. done.
      * exists i. repeat split; [done..|]. intros j c' Hj Hc'.
        apply (Hfirst (S j)); [lia|done].
Qed.

Lemma in_each_child_lookup t f cs i :
  (in_each_child t f cs).1 !! i
  = (λ c, if decide (tag c = t) then (f c).1 else c) <$> cs !! i.
Proof.
  revert i. induction cs as [|c cs IH]; intros i; [done|].
  cbn [in_each_child].
  destruct (in_each_child t f cs) as [cs1 w2]. cbn [fst] in IH.
  destruct i as [|i]; simpl; [|rewrite <- IH];
    destruct (decide (tag c = t)); try destruct (f c); done.
Qed.

Lemma in_first_child_first t f cs i c :
  first_at t cs i c → (in_first_child t f cs).1 !! i = Some (f c).1.
Proof.
  revert i. induction cs as [|c0 cs IH]; intros i (Hi & Hc & Hfirst); [done|].
  cbn [in_first_child]. destruct i as [|i].
  - injection Hi as ->. rewrite decide_True by done. by destruct (f c).
  - rewrite decide_False by (by apply (Hfirst 0); [lia|]).
    specialize (IH i). destruct (in_first_child t f cs) as [cs1 w].
    apply IH. repeat split; [done..|]. intros j c' Hj Hc'.
    apply (Hfirst (S j)); [lia|done].
Qed.

Lemma in_first_child_other t f cs j c :
  cs !! j = Some c → tag c ≠ t → (in_first_child t f cs).1 !! j = Some c.
Proof.
  revert j. induction cs as [|c0 cs IH]; intros j Hj Hc; [done|].
  cbn [in_first_child]. destruct (decide (tag c0 = t)) as [Ht|Ht].
  - destruct (f c0) as [c1 w]. destruct j as [|j]; [|done].
    by injection Hj as ->.
  - specialize (IH (pred j)). destruct (in_first_child t f cs) as [cs1 w].
    destruct j as [|j]; [done|]. by apply IH.
Qed.

Lemma in_first_child_tag t f cs j c' :
  (∀ c, tag (f c).1 = tag c) →
  (in_first_child t f cs).1 !! j = Some c' →
  ∃ c, cs !! j = Some c ∧ tag c' = tag c.
Proof.
  intros Hf. revert j. induction cs as [|c0 cs IH]; intros j; [done|].
  cbn [in_first_child]. destruct (decide (tag c0 = t)) as [Ht|Ht].
  - specialize (Hf c0). destruct (f c0) as [c1 w]. destruct j as [|j].
    + intros [= <-]. by exists c0.
    + intros Hj. by exists c'.
  - specialize (IH (pred j)). destruct (in_first_child t f cs) as [cs1 w].
    destruct j as [|j]; [intros [= <-]; by exists c0|]. apply IH.
Qed.

(** Mutating the first child with tag [t] leaves the first child with
    another tag where and what it was. *)
Lemma in_first_child_first_at t t' f cs i c :
  (∀ c, tag (f c).1 = tag c) → t' ≠ t →
  first_at t' cs i c → first_at t' (in_first_child t f cs).1 i c.
Proof.
  intros Hf Ht (Hi & Hc & Hfirst). repeat split; [|done|].
  - apply in_first_child_other; congruence.
  - intros j c' Hj Hc'.
    destruct (in_first_child_tag t f cs j c' Hf Hc') as (c0 & Hc0 & ->).
    by apply (Hfirst j).
Qed.

Lemma in_each_tag t f parent : tag (in_each t f parent).1 = tag parent.
Proof. unfold in_each. by destruct (in_each_child _ _ _). Qed.

Lemma in_each_children t f parent :
  children (in_each t f parent).1 = (in_each_child t f (children parent)).1.
Proof. unfold in_each. by destruct (in_each_child _ _ _). Qed.

Lemma in_first_children t f parent :
  children (in_first t f parent).1 = (in_first_child t f (children parent)).1.
Proof. unfold in_first. by destruct (in_first_child _ _ _). Qed.

Lemma in_each_child_at t f parent i c :
  child_at t parent i c → children (in_each t f parent).1 !! i = Some (f c).1.
Proof.
  intros [Hi Hc]. rewrite in_each_children, in_each_child_lookup, Hi. simpl.
  by rewrite decide_True.
Qed.

End tree_facts.

(** ** The document after the two passes of the builder *)

Section document_facts.

Lemma update_lexer_styles_returns styles root lexer_styles :
  find "LexerStyles" root = Some lexer_styles →
  update_lexer_styles styles root
  = Returns (in_first "LexerStyles"
               (in_each "LexerType" (in_each "WordsStyle" (apply_styles styles)))
               root).
Proof. intros H. unfold update_lexer_styles, get_lexer_styles. by rewrite H. Qed.

Lemma update_global_styles_returns styles root global_styles :
  find "GlobalStyles" root = Some global_styles →
  update_global_styles styles root
  = Returns (in_first "GlobalStyles"
               (in_each "WidgetStyle" (apply_styles styles)) root).
Proof. intros H. unfold update_global_styles, get_global_styles. by rewrite H. Qed.

Lemma update_lexer_styles_raises styles root :
  find "LexerStyles" root = None →
  update_lexer_styles styles root
  = Raises (ValueError "LexerStyles element not found").
Proof. intros H. unfold update_lexer_styles, get_lexer_styles. by rewrite H. Qed.

Lemma update_global_styles_raises styles root :
  find "GlobalStyles" root = None →
  update_global_styles styles root
  = Raises (ValueError "GlobalStyles element not found").
Proof. intros H. unfold update_global_styles, get_global_styles. by rewrite H. Qed.

(** The first pass does not move or change the [GlobalStyles] section. *)
Lemma find_global_after_lexer styles root r1 :
  update_lexer_styles styles root = Returns r1 →
  find "GlobalStyles" r1.1 = find "GlobalStyles" root.
Proof.
  unfold update_lexer_styles, get_lexer_styles.
  destruct (find "LexerStyles" root); [|done]. intros [= <-].
  set (F := in_each "LexerType" _).
  assert (∀ i c, first_at "GlobalStyles" (children root) i c →
                 first_at "GlobalStyles"
                   (children (in_first "LexerStyles" F root).1) i c) as Hto.
  { intros i c Hc. rewrite in_first_children.
    apply in_first_child_first_at; [|done..]. intros c'. apply in_each_tag. }
  destruct (find "GlobalStyles" root) as [gs|] eqn:Hgs.
  - apply find_first_at. apply find_first_at in Hgs as [i Hi]. eauto.
  - destruct (find "GlobalStyles" (in_first _ _ _).1) as [gs|] eqn:Hgs1; [|done].
    apply find_first_at in Hgs1 as (i & Hi & Hc & Hfirst).
    rewrite in_first_children in Hi.
    destruct (in_first_child_tag _ _ _ _ _ (in_each_tag _ _) Hi)
      as (c0 & Hc0 & Htag).
    assert (c0 ∈ findall "GlobalStyles" root) as Hin.
    { apply list_elem_of_filter. split; [congruence|].
      by eapply list_elem_of_lookup_2. }
    unfold find in Hgs. destruct (findall "GlobalStyles" root); [|done].
    by apply not_elem_of_nil in Hin.
Qed.

(** After both passes every visited leaf has been through the loops over the
    rules, at the place where it was. *)
Lemma styled_leaves styles root r1 r2 :
  update_lexer_styles styles root = Returns r1 →
  update_global_styles styles r1.1 = Returns r2 →
  ∀ path leaf,
    words_style_at root path leaf ∨ widget_style_at root path leaf →
    descend path r2.1 = Some (apply_styles styles leaf).1.
Proof.
  unfold update_lexer_styles, update_global_styles, get_lexer_styles,
    get_global_styles.
  destruct (find "LexerStyles" root); [|done]. intros [= <-].
  destruct (find "GlobalStyles" _); [|done]. intros [= <-].
  set (A := apply_styles styles).
  set (F := in_each "LexerType" (in_each "WordsStyle" A)).
  set (H := in_each "WidgetStyle" A).
  intros path leaf
    [(i & j & k & ls & lt & -> & Hls & Hlt & Hleaf)|(i & k & gs & -> & Hgs & Hleaf)].
  - cbn [descend]. rewrite in_first_children.
    rewrite (in_first_child_other _ _ _ _ (F ls).1).
    + simpl. unfold F. rewrite (in_each_child_at _ _ _ _ _ Hlt). simpl.
      by rewrite (in_each_child_at _ _ _ _ _ Hleaf).
    + rewrite in_first_children. by apply in_first_child_first.
    + unfold F. rewrite in_each_tag. by destruct Hls as (_ & -> & _).
  - cbn [descend]. rewrite in_first_children.
    rewrite (in_first_child_first _ _ _ _ gs).
    + simpl. unfold H. by rewrite (in_each_child_at _ _ _ _ _ Hleaf).
    + rewrite in_first_children.
      apply in_first_child_first_at; [|done..]. intros c. apply in_each_tag.
Qed.

End document_facts.

(** ** Configuration data *)

Section config_facts.
Import StrOrder StrOrderFacts.

Lemma styles_of_config_no_styles (d : gmap string pyval) :
  d !! "styles" = None → styles_of_config (PDict d) = Returns [].
Proof. intros Hd. unfold styles_of_config. simpl. by rewrite Hd. Qed.

Lemma for_each_collect_fmap {A B C} (g : A → B) (body : B → outcome C) xs :
  for_each_collect body (g <$> xs) = for_each_collect (body ∘ g) xs.
Proof. induction xs as [|x xs IH]; [done|]. csimpl. by rewrite IH. Qed.

Lemma for_each_collect_ext {A B} (body1 body2 : A → outcome B) xs :
  (∀ x, body1 x = body2 x) →
  for_each_collect body1 xs = for_each_collect body2 xs.
Proof. intros H. induction xs as [|x xs IH]; [done|]. simpl. by rewrite H, IH. Qed.

Lemma for_each_collect_Forall2 {A B} (body : A → outcome B) (R : A → B → Prop) xs :
  Forall (λ x, ∃ y, body x = Returns y ∧ R x y) xs →
  ∃ ys, for_each_collect body xs = Returns ys ∧ Forall2 R xs ys.
Proof.
  induction 1 as [|x xs (y & Hy & HR) _ (ys & Hys & HRs)].
  - by exists [].
  - exists (y :: ys). simpl. rewrite Hy, Hys. split; [done|by constructor].
Qed.

(** Loading what the writer stored constructs each rule again from its own
    fields. *)
Lemma styles_of_config_saved rules :
  styles_of_config (config_of_styles rules)
  = for_each_collect
      (λ style, new_Style (names style) (fgColor style) (bgColor style)) rules.
Proof.
  unfold styles_of_config, config_of_styles. simpl.
  rewrite lookup_insert_eq. simpl. rewrite for_each_collect_fmap.
  apply for_each_collect_ext. intros style. unfold asdict. simpl.
  rewrite lookup_insert_eq. rewrite lookup_insert_ne, lookup_insert_eq by done.
  by rewrite !lookup_insert_ne, lookup_insert_eq by done.
Qed.

(** Constructing a valid rule again keeps its colours and normalises its
    names. *)
Lemma new_Style_valid style :
  valid_rule style →
  ∃ style', new_Style (names style) (fgColor style) (bgColor style)
            = Returns style' ∧
            fgColor style' = fgColor style ∧ bgColor style' = bgColor style ∧
            sorted_distinct (names style') (λ s, s ∈ names style).
Proof.
  intros (Hns & Hc & Hfg & Hbg).
  destruct (new_Style_checked (names style) (fgColor style) (bgColor style))
    as (l & Hl & Hsd); auto using check_prefix_prefixed.
  by eexists.
Qed.

End config_facts.

(** ** Style auditor *)

Section auditor_facts.
Import StrOrder StrOrderFacts.

(** When every visited leaf has a name, the distinct names come back sorted. *)
Lemma get_distinct_style_names_named lexer_styles :
  Forall (λ leaf, is_Some (get_attr "name" leaf))
         (get_lexer_types lexer_styles ≫= get_words_styles) →
  ∃ l, get_distinct_style_names lexer_styles = Returns (Some <$> l) ∧
       sorted_distinct l (λ n, ∃ leaf,
         leaf ∈ get_lexer_types lexer_styles ≫= get_words_styles ∧
         get_attr "name" leaf = Some n).
Proof.
  intros Hnamed. unfold get_distinct_style_names.
  set (leaves := get_lexer_types lexer_styles ≫= findall "WordsStyle") in *.
  destruct (py_sorted_strs (list_to_set (get_attr "name" <$> leaves)))
    as (l & Hl & Hs & Hm).
  { rewrite elem_of_list_to_set, list_elem_of_fmap. intros (leaf & Hn & Hleaf).
    rewrite Forall_forall in Hnamed. destruct (Hnamed leaf Hleaf). congruence. }
  exists l. split; [done|]. split; [done|]. intros n.
  rewrite Hm, elem_of_list_to_set, list_elem_of_fmap. naive_solver.
Qed.

Lemma get_distinct_missing_style_names_named lexer_styles styles :
  Forall (λ leaf, is_Some (get_attr "name" leaf))
         (get_lexer_types lexer_styles ≫= get_words_styles) →
  ∃ l, get_distinct_missing_style_names lexer_styles styles
       = Returns (Some <$> l) ∧
       sorted_distinct l (λ n,
         (∃ leaf, leaf ∈ get_lexer_types lexer_styles ≫= get_words_styles ∧
                  get_attr "name" leaf = Some n) ∧
         ¬ ∃ style, style ∈ styles ∧ n ∈ names style).
Proof.
  intros Hnamed.
  destruct (get_distinct_style_names_named lexer_styles Hnamed)
    as (l0 & Hl0 & _ & Hm0).
  unfold get_distinct_missing_style_names. rewrite Hl0. simpl.
  set (X := list_to_set (Some <$> l0) ∖ list_to_set (Some <$> (styles ≫= names))).
  destruct (py_sorted_strs X) as (l & Hl & Hs & Hm).
  { unfold X. rewrite elem_of_difference, elem_of_list_to_set, list_elem_of_fmap.
    by intros [(? & ? & ?) _]. }
  exists l. split; [done|]. split; [done|]. intros n.
  rewrite Hm. unfold X.
  rewrite elem_of_difference, !elem_of_list_to_set.
  rewrite !(list_elem_of_fmap_inj Some), Hm0, list_elem_of_bind.
  naive_solver.
Qed.

End auditor_facts.

(** ** Runs of the commands on files *)

Section io_facts.
Context {bytes : Type}.
Variable ET_parse : bytes → option Element.
Variable ET_write : Element → bytes.
Variable yaml_safe_load : bytes → option pyval.
Variable yaml_dump : pyval → bytes.

Lemma load_styles_from_config_run path (w : world) b data :
  files w !! path = Some b → yaml_safe_load b = Some data →
  load_styles_from_config yaml_safe_load path w = (styles_of_config data, w).
Proof.
  intros Hb Hdata. unfold load_styles_from_config, io_bind, read_file.
  rewrite Hb. by rewrite Hdata.
Qed.

(** Loading reads only. *)
Lemma load_styles_from_config_world path (w : world) :
  (load_styles_from_config yaml_safe_load path w).2 = w.
Proof.
  unfold load_styles_from_config, io_bind, read_file.
  destruct (files w !! path) as [b|]; [|done].
  destruct (yaml_safe_load b); [|done]. unfold io_lift.
  by destruct (styles_of_config _).
Qed.

Lemma parse_xml_file_run path (w : world) b root :
  files w !! path = Some b → ET_parse b = Some root →
  parse_xml_file ET_parse path w = (Returns root, w).
Proof.
  intros Hb Hroot. unfold parse_xml_file, io_bind, read_file.
  rewrite Hb. by rewrite Hroot.
Qed.

(** The run of the builder once the rules and the document are read. *)
Lemma create_or_update_template_run source target config (w : world) styles root :
  load_styles_from_config yaml_safe_load config w = (Returns styles, w) →
  parse_xml_file ET_parse source w = (Returns root, w) →
  create_or_update_template ET_parse ET_write yaml_safe_load source target config w
  = match update_lexer_styles styles root with
    | Returns r1 =>
        let w1 := mkWorld (files w) (log w ++ r1.2) in
        match update_global_styles styles r1.1 with
        | Returns r2 =>
            (Returns (),
             mkWorld (<[target := ET_write r2.1]> (files w)) (log w1 ++ r2.2))
        | Raises e => (Raises e, w1)
        | Untyped => (Untyped, w1)
        end
    | Raises e => (Raises e, w)
    | Untyped => (Untyped, w)
    end.
Proof.
  intros Hload Hparse. unfold create_or_update_template.
  unfold io_bind at 1. rewrite Hload. unfold io_bind at 1. rewrite Hparse.
  unfold io_bind at 1. unfold io_lift at 1.
  destruct (update_lexer_styles styles root) as [r1|e|]; [|done..].
  unfold io_bind at 1. unfold io_log at 1.
  unfold io_bind at 1. unfold io_lift at 1.
  destruct (update_global_styles styles r1.1) as [r2|e|]; [|done..].
  by unfold io_bind, io_log, write_file.
Qed.

(** With a section missing the builder stops before it writes. *)
Lemma create_or_update_template_missing source target config (w : world)
    b styles root :
  load_styles_from_config yaml_safe_load config w = (Returns styles, w) →
  files w !! source = Some b → ET_parse b = Some root →
  find "LexerStyles" root = None ∨ find "GlobalStyles" root = None →
  ∃ w',
    create_or_update_template ET_parse ET_write yaml_safe_load
      source target config w
    = (Raises (ValueError
                 (match find "LexerStyles" root with
                  | Some _ => "GlobalStyles element not found"
                  | None => "LexerStyles element not found"
                  end)), w') ∧
    files w' = files w.
Proof.
  intros Hload Hb Hroot Hmiss.
  rewrite (create_or_update_template_run _ _ _ _ styles root);
    [|done|by eapply parse_xml_file_run].
  destruct (find "LexerStyles" root) as [ls|] eqn:Hls.
  - destruct Hmiss as [?|Hgs]; [done|].
    pose proof (update_lexer_styles_returns styles root _ Hls) as H1.
    rewrite H1. cbn zeta.
    pose proof (find_global_after_lexer styles root _ H1) as Hgs1.
    rewrite Hgs in Hgs1. rewrite update_global_styles_raises by done.
    by eexists.
  - rewrite update_lexer_styles_raises by done. by eexists.
Qed.

End io_facts.

(** * The claims *)

(** ** Style model (C1, C8) *)

Section Style_claims.
Import StrOrder StrOrderFacts.

(** C1. The claim asks that construction fail whenever [names] is empty, both
    colours are absent, or a present colour lacks the [$] prefix, the empty
    string included.  The constructor rejects the first two and every
    non-empty unprefixed colour ([new_Style_no_names], [new_Style_no_color],
    [new_Style_unprefixed]), but the empty string, which has no prefix, gets
    through its truthiness test: this input is accepted and stored. *)
Theorem Style_empty_color_accepted :
  String.prefix "$" "" = false ∧
  new_Style ["KEYWORD"] (Some "") None
  = Returns (mkStyle ["KEYWORD"] (Some "") None).
Proof. split; [done|]. vm_compute. reflexivity. Qed.

(** C8, as stated: non-empty [names] and one present colour with the prefix
    are not enough for construction to succeed when the other colour is
    present without the prefix. *)
Lemma Style_one_prefixed_color_rejected :
  ["KEYWORD"] ≠ ([] : list string) ∧
  String.prefix "$" "$iris" = true ∧
  new_Style ["KEYWORD"] (Some "$iris") (Some "base")
  = Raises (ValueError "bgColor must start with '$' if provided").
Proof. split; [done|]. split; [done|]. vm_compute. reflexivity. Qed.

(** C8, amended: for non-empty [names], at least one present colour and every
    present colour carrying the [$] prefix, construction succeeds, keeps the
    colours, and stores the names without duplicates in ascending order. *)
Theorem Style_valid_names_normalized ns fg bg :
  ns ≠ [] → is_Some fg ∨ is_Some bg →
  color_prefixed fg → color_prefixed bg →
  ∃ l, new_Style ns fg bg = Returns (mkStyle l fg bg) ∧
       sorted_distinct l (λ s, s ∈ ns).
Proof.
  intros Hns Hc Hfg Hbg.
  apply new_Style_checked; auto using check_prefix_prefixed.
Qed.

Lemma Style_valid_names_normalized_witness :
  ∃ l, new_Style ["b"; "a"; "b"] (Some "$iris") None
       = Returns (mkStyle l (Some "$iris") None) ∧
       sorted_distinct l (λ s, s ∈ ["b"; "a"; "b"]).
Proof.
  apply (Style_valid_names_normalized ["b"; "a"; "b"] (Some "$iris") None).
  - discriminate.
  - left. exists "$iris". reflexivity.
  - intros s Hs. injection Hs as <-. reflexivity.
  - intros s Hs. discriminate.
Defined.

End Style_claims.

(** ** Colour updater (C3, C7) *)

Section update_claims.

(** C3. On an element whose [name] is the candidate name, a call with a
    foreground colour and no background colour sets [fgColor] and leaves
    [bgColor] as it was, present or not; and the other way round. *)
Theorem update_sets_only_given_color e n :
  get_attr "name" e = Some n →
  (∀ fg, let e' := (update_fg_bg_color e n (Some fg) None).1 in
         get_attr "fgColor" e' = Some fg ∧
         get_attr "bgColor" e' = get_attr "bgColor" e) ∧
  (∀ bg, let e' := (update_fg_bg_color e n None (Some bg)).1 in
         get_attr "bgColor" e' = Some bg ∧
         get_attr "fgColor" e' = get_attr "fgColor" e).
Proof.
  intros He. split; intros c e'; subst e'.
  - rewrite (update_channel Fg), (update_channel Bg).
    by rewrite !decide_True by done.
  - rewrite (update_channel Fg), (update_channel Bg).
    by rewrite !decide_True by done.
Qed.

Lemma update_sets_only_given_color_witness :
  get_attr "fgColor"
    (update_fg_bg_color Sample.keyword "KEYWORD" (Some "$base") None).1
  = Some "$base" ∧
  get_attr "bgColor"
    (update_fg_bg_color Sample.keyword "KEYWORD" (Some "$base") None).1
  = get_attr "bgColor" Sample.keyword.
Proof.
  apply (update_sets_only_given_color Sample.keyword "KEYWORD").
  vm_compute. reflexivity.
Defined.

(** C7. On an element whose [name] is not the candidate name, absent
    included, a call returns the element as it was, whatever the colours; it
    logs one warning and cannot raise. *)
Theorem update_mismatch_unchanged e n fg bg :
  get_attr "name" e ≠ Some n →
  update_fg_bg_color e n fg bg
  = (e, [mismatch_warning n (get_attr "name" e)]).
Proof. apply update_mismatch. Qed.

Lemma update_mismatch_unchanged_witness :
  update_fg_bg_color Sample.keyword "COMMENT" (Some "$base") (Some "$text")
  = (Sample.keyword,
     ["Style name mismatch: expected `COMMENT` but got `KEYWORD`."]).
Proof.
  apply (update_mismatch_unchanged Sample.keyword "COMMENT").
  vm_compute. discriminate.
Defined.

End update_claims.

(** ** Template builder (C2) *)

Section build_claims.
Context {bytes : Type}.
Variable ET_parse : bytes → option Element.
Variable ET_write : Element → bytes.
Variable yaml_safe_load : bytes → option pyval.

(** C2. When the source document lacks the [LexerStyles] or the
    [GlobalStyles] section under its root, the build does not return and
    leaves every file as it was, the target included; once the rules have
    loaded, what it raises is the error of the missing section. *)
Theorem build_missing_section_fails source target config (w : world) b root :
  files w !! source = Some b → ET_parse b = Some root →
  find "LexerStyles" root = None ∨ find "GlobalStyles" root = None →
  let run := create_or_update_template ET_parse ET_write yaml_safe_load
               source target config w in
  files run.2 = files w ∧ run.1 ≠ Returns () ∧
  ∀ styles,
    load_styles_from_config yaml_safe_load config w = (Returns styles, w) →
    run.1 = Raises (ValueError
                      (match find "LexerStyles" root with
                       | Some _ => "GlobalStyles element not found"
                       | None => "LexerStyles element not found"
                       end)).
Proof.
  intros Hb Hroot Hmiss run.
  destruct (load_styles_from_config yaml_safe_load config w) as [o w0] eqn:Hload.
  pose proof (load_styles_from_config_world yaml_safe_load config w) as Hw.
  rewrite Hload in Hw. simpl in Hw. subst w0.
  destruct o as [styles|e|].
  - destruct (create_or_update_template_missing ET_parse ET_write
                yaml_safe_load source target config w b styles root)
      as (w' & Hrun & Hfiles); [done..|].
    subst run. rewrite Hrun. simpl. split; [done|]. split; [done|].
    by intros styles' [= <-].
  - assert (run = (Raises e, w)) as ->.
    { subst run. unfold create_or_update_template, io_bind. by rewrite Hload. }
    by repeat split.
  - assert (run = (Untyped, w)) as ->.
    { subst run. unfold create_or_update_template, io_bind. by rewrite Hload. }
    by repeat split.
Qed.

End build_claims.

Section build_examples.

Lemma build_missing_section_fails_witness :
  let run := create_or_update_template Sample.ET_parse Sample.ET_write
               Sample.yaml_safe_load "stylers.xml" "template.xml" "config.yaml"
               (Sample.world_with Sample.stylers_no_global) in
  files run.2 = Sample.files_with Sample.stylers_no_global ∧
  run.1 = Raises (ValueError "GlobalStyles element not found").
Proof.
  destruct (build_missing_section_fails Sample.ET_parse Sample.ET_write
              Sample.yaml_safe_load "stylers.xml" "template.xml" "config.yaml"
              (Sample.world_with Sample.stylers_no_global)
              (Sample.XmlFile Sample.stylers_no_global)
              Sample.stylers_no_global)
    as (Hfiles & _ & Hraise).
  - vm_compute. reflexivity.
  - reflexivity.
  - right. vm_compute. reflexivity.
  - split; [exact Hfiles|].
    apply (Hraise Sample.rules). vm_compute. reflexivity.
Defined.

Lemma sample_keyword_at :
  words_style_at Sample.stylers [0; 0; 0] Sample.keyword.
Proof.
  exists 0, 0, 0, Sample.lexer_styles,
    (Sample.node "LexerType" [Sample.keyword; Sample.comment]).
  repeat split. intros j c' Hj. exfalso. exact (Nat.nlt_0_r _ Hj).
Qed.

Lemma sample_comment_at :
  words_style_at Sample.stylers [0; 0; 1] Sample.comment.
Proof.
  exists 0, 0, 1, Sample.lexer_styles,
    (Sample.node "LexerType" [Sample.keyword; Sample.comment]).
  repeat split. intros j c' Hj. exfalso. exact (Nat.nlt_0_r _ Hj).
Qed.

Lemma sample_comment_unmatched : unmatched Sample.rules Sample.comment.
Proof.
  intros style n Hstyle Hn.
  apply elem_of_cons in Hstyle as [->|Hstyle].
  { apply elem_of_cons in Hn as [->|Hn]; [vm_compute; discriminate|].
    by apply not_elem_of_nil in Hn. }
  apply elem_of_cons in Hstyle as [->|Hstyle].
  { apply elem_of_cons in Hn as [->|Hn]; [vm_compute; discriminate|].
    apply elem_of_cons in Hn as [->|Hn]; [vm_compute; discriminate|].
    by apply not_elem_of_nil in Hn. }
  by apply not_elem_of_nil in Hstyle.
Qed.

End build_examples.

(** ** Configuration loader and writer (C5, C10) *)

Section config_claims.
Context {bytes : Type}.
Variable yaml_safe_load : bytes → option pyval.
Variable yaml_dump : pyval → bytes.
Import StrOrder StrOrderFacts.

(** C5. Provided [yaml.safe_load] reads back what [yaml.dump] wrote, saving
    valid rules and loading the file again gives as many rules in the same
    order, each with the colours of the original and with its names sorted
    and without duplicates; rules whose names were already so come back
    equal. *)
Theorem save_then_load path rules (w : world) :
  (∀ data, yaml_safe_load (yaml_dump data) = Some data) →
  Forall valid_rule rules →
  let w1 := (format_config_file yaml_dump path rules w).2 in
  ∃ loaded,
    load_styles_from_config yaml_safe_load path w1 = (Returns loaded, w1) ∧
    Forall2 (λ style style',
               fgColor style' = fgColor style ∧
               bgColor style' = bgColor style ∧
               sorted_distinct (names style') (λ s, s ∈ names style))
            rules loaded ∧
    (Forall (λ style, StronglySorted lt (names style)) rules → loaded = rules).
Proof.
  intros Hyaml Hvalid w1.
  destruct (for_each_collect_Forall2
              (λ style, new_Style (names style) (fgColor style) (bgColor style))
              (λ style style',
                 fgColor style' = fgColor style ∧
                 bgColor style' = bgColor style ∧
                 sorted_distinct (names style') (λ s, s ∈ names style))
              rules) as (loaded & Hloaded & Hrel).
  { eapply Forall_impl; [exact Hvalid|]. intros style Hstyle.
    destruct (new_Style_valid style Hstyle) as (style' & ? & ? & ? & ?).
    by exists style'. }
  exists loaded. split; [|split; [done|]].
  - rewrite (load_styles_from_config_run yaml_safe_load path w1
               (yaml_dump (config_of_styles rules)) (config_of_styles rules)).
    + by rewrite styles_of_config_saved, Hloaded.
    + subst w1. unfold format_config_file, write_file. simpl.
      apply lookup_insert_eq.
    + apply Hyaml.
  - clear Hloaded Hvalid. intros Hsorted.
    induction Hrel as [|style style' rules loaded (Hfg & Hbg & Hs & Hm) _ IH];
      [done|].
    apply Forall_cons in Hsorted as [Hstyle Hsorted].
    rewrite IH by done. f_equal.
    destruct style as [ns fg bg], style' as [ns' fg' bg']. simpl in *.
    subst fg' bg'. f_equal. by apply StronglySorted_lt_unique.
Qed.

(** C10. When the configuration file parses to a mapping without the key
    [styles], the loader returns the empty list of rules and raises
    nothing. *)
Theorem load_without_styles_key path (w : world) b (d : gmap string pyval) :
  files w !! path = Some b → yaml_safe_load b = Some (PDict d) →
  d !! "styles" = None →
  load_styles_from_config yaml_safe_load path w = (Returns [], w).
Proof.
  intros Hb Hd Hkey.
  rewrite (load_styles_from_config_run yaml_safe_load path w b (PDict d)) by done.
  by rewrite styles_of_config_no_styles.
Qed.

End config_claims.

Section config_examples.

Lemma sample_rules_valid : Forall valid_rule Sample.rules.
Proof.
  repeat apply Forall_cons_2; [..|apply Forall_nil_2].
  - split; [discriminate|]. split; [left; by eexists|].
    split; intros s Hs; injection Hs as <-; reflexivity.
  - split; [discriminate|]. split; [left; by eexists|].
    split; intros s Hs; [injection Hs as <-; reflexivity|discriminate].
Qed.

Lemma save_then_load_witness :
  load_styles_from_config Sample.yaml_safe_load "config.yaml"
    (format_config_file Sample.yaml_dump "config.yaml" Sample.rules
       (mkWorld ∅ [])).2
  = (Returns Sample.rules,
     (format_config_file Sample.yaml_dump "config.yaml" Sample.rules
        (mkWorld ∅ [])).2).
Proof.
  destruct (save_then_load Sample.yaml_safe_load Sample.yaml_dump
              "config.yaml" Sample.rules (mkWorld ∅ []))
    as (loaded & Hload & _ & Hsame).
  - intros data. reflexivity.
  - exact sample_rules_valid.
  - rewrite Hload. rewrite Hsame; [reflexivity|].
    repeat apply Forall_cons_2; [..|apply Forall_nil_2];
      repeat (apply SSorted_cons || apply SSorted_nil || apply Forall_cons_2
              || apply Forall_nil_2); reflexivity.
Defined.

Lemma load_without_styles_key_witness :
  load_styles_from_config Sample.yaml_safe_load "config.yaml"
    (mkWorld {["config.yaml" := Sample.YamlFile (PDict {["theme" := PStr "rose-pine"]})]} [])
  = (Returns [],
     mkWorld {["config.yaml" := Sample.YamlFile (PDict {["theme" := PStr "rose-pine"]})]} []).
Proof.
  apply (load_without_styles_key Sample.yaml_safe_load "config.yaml" _
           (Sample.YamlFile (PDict {["theme" := PStr "rose-pine"]}))
           {["theme" := PStr "rose-pine"]}).
  - vm_compute. reflexivity.
  - reflexivity.
  - vm_compute. reflexivity.
Defined.

End config_examples.


(** * Further properties *)

(** ** Style model *)

Section Style_more.
Import StrOrder StrOrderFacts.

Lemma py_sorted_Permutation (X : gset (option string)) l :
  py_sorted X = Returns l → l ≡ₚ elements X.
Proof.
  unfold py_sorted. destruct (elements X) as [|x [|y xs]]; [by intros [= <-]..|].
  destruct (mapM id (x :: y :: xs)) as [l0|] eqn:Hl0; [|done]. intros [= <-].
  apply (mapM_fmap_Some_inv _ Some) in Hl0 as <-; [|intros ? ? Hid; symmetry; exact Hid].
  by rewrite merge_sort_Permutation.
Qed.

Lemma py_sorted_names (X : gset (option string)) l ns :
  py_sorted X = Returns l → mapM id l = Some ns →
  StronglySorted lt ns ∧ ∀ s, s ∈ ns ↔ Some s ∈ X.
Proof.
  intros Hl Hns.
  apply (mapM_fmap_Some_inv _ Some) in Hns as Hl'; [|intros ? ? Hid; symmetry; exact Hid]. subst l.
  destruct (py_sorted_strs X) as (l' & Hl' & Hs & Hm).
  { rewrite <- elem_of_elements, <- (py_sorted_Permutation _ _ Hl).
    rewrite list_elem_of_fmap. by intros (? & ? & ?). }
  rewrite Hl in Hl'. injection Hl' as Heq. apply (inj (fmap Some)) in Heq.
  by subst l'.
Qed.

Lemma check_prefix_PStr msg s :
  check_prefix msg (PStr s) = Returns () ↔ s = "" ∨ String.prefix "$" s = true.
Proof.
  unfold check_prefix. destruct s as [|a s]; [by split; [left|]|].
  cbn -[String.prefix]. destruct (String.prefix _ _); split; try done; auto.
  by intros [|].
Qed.

Lemma check_prefix_accepted msg c :
  color_accepted c ↔ check_prefix msg (py_opt c) = Returns ().
Proof.
  destruct c as [s|]; simpl.
  - rewrite check_prefix_PStr. split; [by intros H; apply H|by intros H ? [= <-]].
  - by split.
Qed.

Lemma truthy_iter_nonempty v items :
  truthy v = true → py_iter v = Returns items → items ≠ [].
Proof.
  destruct v as [|s|l|d]; simpl; [done|..]; intros Ht [= <-].
  - by destruct s.
  - by destruct l.
  - intros Hnil. apply fmap_nil_inv, elements_empty_inv in Hnil.
    apply leibniz_equiv in Hnil. rewrite Hnil in Ht.
    by rewrite bool_decide_eq_true_2 in Ht.
Qed.

Lemma Style_post_init_Returns names_arg fg bg style :
  Style_post_init names_arg fg bg = Returns style → constructed style.
Proof.
  unfold Style_post_init.
  destruct (truthy names_arg) eqn:Htruthy; [|done]. cbn [negb].
  destruct (is_None fg && is_None bg) eqn:Hnone; [done|].
  destruct (check_prefix _ fg) as [[]| |] eqn:Hfg; [|done..]. cbn [mbind outcome_bind].
  destruct (check_prefix _ bg) as [[]| |] eqn:Hbg; [|done..]. cbn [mbind outcome_bind].
  destruct (py_iter names_arg) as [items| |] eqn:Hitems; [|done..].
  cbn [mbind outcome_bind]. unfold py_set.
  destruct (mapM hashable items) as [ks|] eqn:Hks; [|done].
  cbn [mbind outcome_bind].
  destruct (py_sorted (list_to_set ks)) as [l| |] eqn:Hl; [|done..].
  cbn [mbind outcome_bind]. unfold as_names.
  destruct (mapM id l) as [ns|] eqn:Hns; [|done]. cbn [mbind outcome_bind].
  destruct (as_color fg) as [f| |] eqn:Hf; [|done..]. cbn [mbind outcome_bind].
  destruct (as_color bg) as [b| |] eqn:Hb; [|done..]. cbn [mbind outcome_bind].
  intros [= <-]. destruct (py_sorted_names _ _ _ Hl Hns) as [Hsorted Hmem].
  assert (∀ msg c o, as_color c = Returns o → check_prefix msg c = Returns () →
                     color_accepted o) as Hacc.
  { intros msg [|s| |] o; simpl; intros [= <-]; [done|].
    intros Hc s' [= <-]. by apply (check_prefix_PStr msg). }
  repeat split; simpl; [|done| |by eapply Hacc..].
  - intros ->.
    pose proof (truthy_iter_nonempty _ _ Htruthy Hitems) as Hne.
    apply (length_mapM) in Hks as Hlen.
    destruct ks as [|k ks]; [by destruct items|].
    destruct k as [s|].
    + assert (s ∈ ([] : list string)) as Hin; [|by apply not_elem_of_nil in Hin].
      apply Hmem, elem_of_list_to_set. by left.
    + apply py_sorted_Permutation in Hl.
      assert (None ∈ l) as Hin.
      { rewrite Hl, elem_of_elements, elem_of_list_to_set. by left. }
      apply (mapM_fmap_Some_inv _ Some) in Hns; [|intros ? ? Hid; symmetry; exact Hid].
      rewrite <- Hns in Hin. by apply not_elem_of_nil in Hin.
  - destruct fg, bg; simpl in *; try done;
      injection Hf as <-; injection Hb as <-; eauto.
Qed.

Lemma new_Style_cases ns fg bg :
  (ns = [] ∧
   new_Style ns fg bg = Raises (ValueError "names list cannot be empty")) ∨
  (ns ≠ [] ∧ fg = None ∧ bg = None ∧
   new_Style ns fg bg
   = Raises (ValueError "At least one of fgColor or bgColor must be provided")) ∨
  (ns ≠ [] ∧ ¬ color_accepted fg ∧
   new_Style ns fg bg
   = Raises (ValueError "fgColor must start with '$' if provided")) ∨
  (ns ≠ [] ∧ color_accepted fg ∧ ¬ color_accepted bg ∧
   new_Style ns fg bg
   = Raises (ValueError "bgColor must start with '$' if provided")) ∨
  (ns ≠ [] ∧ (is_Some fg ∨ is_Some bg) ∧
   color_accepted fg ∧ color_accepted bg ∧
   ∃ l, new_Style ns fg bg = Returns (mkStyle l fg bg) ∧
        sorted_distinct l (λ s, s ∈ ns)).
Proof.
  destruct ns as [|n ns]; [by left|]. right.
  destruct (decide (fg = None ∧ bg = None)) as [[-> ->]|Hsome].
  { left. by repeat split. }
  right.
  assert (is_Some fg ∨ is_Some bg) as Hc.
  { destruct fg, bg; eauto. by destruct Hsome. }
  assert (new_Style (n :: ns) fg bg
          = (_ ← check_prefix "fgColor must start with '$' if provided" (py_opt fg);
             _ ← check_prefix "bgColor must start with '$' if provided" (py_opt bg);
             new_Style (n :: ns) fg bg)) as Hsteps.
  { unfold new_Style, Style_post_init.
    assert (truthy (py_strs (n :: ns)) = true) as -> by done.
    assert (is_None (py_opt fg) && is_None (py_opt bg) = false) as ->.
    { by destruct Hc as [[? ->]|[? ->]]; [|destruct fg]. }
    cbn [negb]. cbv iota.
    destruct (check_prefix _ (py_opt fg)) as [[]| |]; [|done..].
    cbn [mbind outcome_bind].
    by destruct (check_prefix _ (py_opt bg)) as [[]| |]. }
  destruct (check_prefix_py_opt "fgColor must start with '$' if provided" fg)
    as [Hfg|Hfg].
  2:{ left. split; [done|]. split.
      - rewrite (check_prefix_accepted "fgColor must start with '$' if provided").
        by rewrite Hfg.
      - rewrite Hsteps. by rewrite Hfg. }
  right.
  destruct (check_prefix_py_opt "bgColor must start with '$' if provided" bg)
    as [Hbg|Hbg].
  2:{ left. split; [done|]. split; [by eapply check_prefix_accepted|]. split.
      - rewrite (check_prefix_accepted "bgColor must start with '$' if provided").
        by rewrite Hbg.
      - rewrite Hsteps. rewrite Hfg. cbn [mbind outcome_bind]. by rewrite Hbg. }
  right. split; [done|]. split; [done|].
  split; [by eapply check_prefix_accepted|].
  split; [by eapply check_prefix_accepted|].
  by apply new_Style_checked.
Qed.

(** X1. Construction from names and colours of the annotated types has five
    outcomes, tried in this order: no name; no colour; a foreground colour
    that is neither empty nor prefixed; such a background colour; otherwise
    the rule with its colours as given and its names sorted without
    duplicates.  It raises nothing but [ValueError]. *)
Theorem new_Style_outcomes ns fg bg :
  (ns = [] ∧
   new_Style ns fg bg = Raises (ValueError "names list cannot be empty")) ∨
  (ns ≠ [] ∧ fg = None ∧ bg = None ∧
   new_Style ns fg bg
   = Raises (ValueError "At least one of fgColor or bgColor must be provided")) ∨
  (ns ≠ [] ∧ ¬ color_accepted fg ∧
   new_Style ns fg bg
   = Raises (ValueError "fgColor must start with '$' if provided")) ∨
  (ns ≠ [] ∧ color_accepted fg ∧ ¬ color_accepted bg ∧
   new_Style ns fg bg
   = Raises (ValueError "bgColor must start with '$' if provided")) ∨
  (ns ≠ [] ∧ (is_Some fg ∨ is_Some bg) ∧
   color_accepted fg ∧ color_accepted bg ∧
   ∃ l, new_Style ns fg bg = Returns (mkStyle l fg bg) ∧
        sorted_distinct l (λ s, s ∈ ns)).
Proof. apply new_Style_cases. Qed.

(** X3. Constructing a rule again from the fields of a constructed rule
    gives the same rule: the normal form of the names is stable. *)
Theorem new_Style_idempotent ns fg bg style :
  new_Style ns fg bg = Returns style →
  new_Style (names style) (fgColor style) (bgColor style) = Returns style.
Proof.
  intros Hstyle.
  destruct (new_Style_cases ns fg bg)
    as [[_ H]|[(_&_&_&H)|[(_&_&H)|[(_&_&_&H)|(Hns&Hc&Hfg&Hbg&l&Hl&Hs&Hm)]]]];
    try congruence.
  rewrite Hstyle in Hl. injection Hl as ->. simpl.
  destruct (new_Style_checked l fg bg) as (l' & Hl' & Hs' & Hm').
  - intros ->. destruct ns as [|n ns]; [done|].
    assert (n ∈ ([] : list string)) as Hin by (apply Hm; by left).
    by apply not_elem_of_nil in Hin.
  - done.
  - by apply check_prefix_accepted.
  - by apply check_prefix_accepted.
  - rewrite Hl'. do 2 f_equal. by apply StronglySorted_lt_unique.
Qed.

Lemma new_Style_idempotent_witness :
  new_Style ["KEYWORD"; "COMMENT"] (Some "$iris") None
  = Returns (mkStyle ["COMMENT"; "KEYWORD"] (Some "$iris") None) ∧
  new_Style ["COMMENT"; "KEYWORD"] (Some "$iris") None
  = Returns (mkStyle ["COMMENT"; "KEYWORD"] (Some "$iris") None).
Proof.
  split; [vm_compute; reflexivity|].
  apply (new_Style_idempotent ["KEYWORD"; "COMMENT"] (Some "$iris") None
           (mkStyle ["COMMENT"; "KEYWORD"] (Some "$iris") None)).
  vm_compute. reflexivity.
Defined.

End Style_more.

(** ** The rules on one leaf *)

Section rules_more.

Lemma Element_eq (e e' : Element) :
  tag e = tag e' → attrib e = attrib e' → text e = text e' →
  tail e = tail e' → children e = children e' → e = e'.
Proof. destruct e, e'. simpl. by intros -> -> -> -> ->. Qed.

Lemma channel_key_cases k :
  k = channel_key Fg ∨ k = channel_key Bg ∨ (k ≠ "fgColor" ∧ k ≠ "bgColor").
Proof.
  destruct (decide (k = "fgColor")) as [->|?]; [by left|].
  destruct (decide (k = "bgColor")) as [->|?]; [by right; left|]. by right; right.
Qed.

Lemma apply_styles_name styles leaf :
  get_attr "name" (apply_styles styles leaf).1 = get_attr "name" leaf.
Proof. apply same_but_colors_name, apply_styles_frame. Qed.

Lemma last_color_cons ch n style styles :
  last_color ch n (style :: styles)
  = match last_color ch n styles with
    | Some c => Some c
    | None => if decide (n ∈ names style) then channel_color ch style else None
    end.
Proof.
  unfold last_color. csimpl.
  destruct (decide (n ∈ names style)); [|by destruct (last _)].
  destruct (channel_color ch style); [|by destruct (last _)].
  by rewrite last_cons.
Qed.

(** The value of a colour attribute after all the rules. *)
Lemma apply_styles_channel_exact ch styles n leaf :
  get_attr "name" leaf = Some n →
  get_attr (channel_key ch) (apply_styles styles leaf).1
  = from_option Some (get_attr (channel_key ch) leaf) (last_color ch n styles).
Proof.
  revert leaf. induction styles as [|style styles IH]; intros leaf Hname; [done|].
  rewrite apply_styles_cons, IH.
  2:{ rewrite (same_but_colors_name leaf); [done|apply apply_style_frame]. }
  rewrite (apply_style_channel ch style n) by done.
  rewrite last_color_cons.
  destruct (last_color ch n styles); [done|].
  by destruct (decide (n ∈ names style)), (channel_color ch style).
Qed.

Lemma last_color_Some ch n styles c :
  last_color ch n styles = Some c →
  ∃ style, style ∈ styles ∧ n ∈ names style ∧ channel_color ch style = Some c.
Proof.
  unfold last_color. intros Hlast. apply last_Some_elem_of in Hlast.
  apply list_elem_of_omap in Hlast as (style & Hstyle & Hc).
  exists style. split; [done|]. by case_decide.
Qed.

(** X4. The rules never remove an attribute of a leaf and change nothing of
    it but [fgColor] and [bgColor]: tag, text, tail, children and every other
    attribute, [name] included, stay. *)
Theorem rules_keep_attributes styles leaf :
  same_but_colors leaf (apply_styles styles leaf).1 ∧
  dom (attrib leaf) ⊆ dom (attrib (apply_styles styles leaf).1).
Proof.
  split; [apply apply_styles_frame|].
  intros k Hk. apply elem_of_dom in Hk. apply elem_of_dom.
  destruct (get_attr "name" leaf) as [n|] eqn:Hname.
  - destruct (channel_key_cases k) as [->|[->|[Hfg Hbg]]].
    + fold (get_attr (channel_key Fg) (apply_styles styles leaf).1).
      rewrite (apply_styles_channel_exact Fg styles n) by done.
      by destruct (last_color _ _ _).
    + fold (get_attr (channel_key Bg) (apply_styles styles leaf).1).
      rewrite (apply_styles_channel_exact Bg styles n) by done.
      by destruct (last_color _ _ _).
    + destruct (apply_styles_frame styles leaf) as (_&_&_&_&Hother).
      fold (get_attr k (apply_styles styles leaf).1). by rewrite Hother.
  - rewrite apply_styles_unmatched; [done|]. intros style n _ _. congruence.
Qed.

(** X5. After the rules a colour attribute of a leaf is what it was, or it
    is the colour that some rule naming the leaf carries for it. *)
Theorem rules_color_provenance ch styles leaf :
  get_attr (channel_key ch) (apply_styles styles leaf).1
  = get_attr (channel_key ch) leaf ∨
  ∃ style n c,
    style ∈ styles ∧ get_attr "name" leaf = Some n ∧ n ∈ names style ∧
    channel_color ch style = Some c ∧
    get_attr (channel_key ch) (apply_styles styles leaf).1 = Some c.
Proof.
  destruct (get_attr "name" leaf) as [n|] eqn:Hname.
  - rewrite (apply_styles_channel_exact ch styles n) by done.
    destruct (last_color ch n styles) as [c|] eqn:Hlast; [|by left].
    right. apply last_color_Some in Hlast as (style & ? & ? & ?).
    by exists style, n, c.
  - left. rewrite apply_styles_unmatched; [done|]. intros style n _ _. congruence.
Qed.

Lemma apply_styles_twice styles leaf :
  (apply_styles styles (apply_styles styles leaf).1).1
  = (apply_styles styles leaf).1.
Proof.
  destruct (get_attr "name" leaf) as [n|] eqn:Hname.
  2:{ rewrite !(apply_styles_unmatched styles leaf); try done;
        intros style n _ _; congruence. }
  set (out := (apply_styles styles leaf).1).
  assert (get_attr "name" out = Some n) as Hout.
  { unfold out. by rewrite apply_styles_name. }
  destruct (apply_styles_frame styles out) as (Htag&Htext&Htail&Hchildren&Hother).
  apply Element_eq; [done| |done..].
  apply map_eq. intros k.
  change (get_attr k (apply_styles styles out).1 = get_attr k out).
  destruct (channel_key_cases k) as [->|[->|[Hfg Hbg]]]; [| |by apply Hother].
  - rewrite (apply_styles_channel_exact Fg styles n out) by done. unfold out.
    rewrite (apply_styles_channel_exact Fg styles n leaf) by done.
    by destruct (last_color _ _ _).
  - rewrite (apply_styles_channel_exact Bg styles n out) by done. unfold out.
    rewrite (apply_styles_channel_exact Bg styles n leaf) by done.
    by destruct (last_color _ _ _).
Qed.

(** X6. Running the rules on a leaf that has been through them changes
    nothing more. *)
Theorem rules_idempotent styles leaf :
  (apply_styles styles (apply_styles styles leaf).1).1
  = (apply_styles styles leaf).1.
Proof. apply apply_styles_twice. Qed.

Lemma for_each_snd_cons {A S} (body : S → A → S * list string) x xs s :
  (for_each body (x :: xs) s).2
  = ((body s x).2 ++ (for_each body xs (body s x).1).2)%list.
Proof.
  cbn [for_each]. destruct (body s x) as [s1 w1]. cbn [fst snd].
  by destruct (for_each body xs s1).
Qed.

Lemma apply_style_warnings leaf style :
  (apply_style leaf style).2
  = (λ n, mismatch_warning n (get_attr "name" leaf))
      <$> filter (λ n, get_attr "name" leaf ≠ Some n) (names style).
Proof.
  unfold apply_style. generalize (names style). intros ns.
  remember (get_attr "name" leaf) as a eqn:Ha. revert leaf Ha.
  induction ns as [|n ns IH]; intros leaf Ha; [done|].
  rewrite for_each_snd_cons, (IH (update_fg_bg_color leaf n _ _).1).
  2:{ rewrite Ha. symmetry. apply same_but_colors_name, update_frame. }
  rewrite filter_cons. destruct (decide (a ≠ Some n)) as [Hne|Heq].
  - rewrite update_mismatch by congruence. simpl. by rewrite Ha.
  - apply dec_stable in Heq. rewrite update_match by congruence. done.
Qed.

(** X7. The warnings the rules log for a leaf are exactly one for each
    candidate name that is not the name of the leaf, in the order of the
    rules and of their names. *)
Theorem rules_warnings_exact styles leaf :
  (apply_styles styles leaf).2
  = (λ n, mismatch_warning n (get_attr "name" leaf))
      <$> filter (λ n, get_attr "name" leaf ≠ Some n) (candidate_names styles).
Proof.
  unfold apply_styles, candidate_names.
  remember (get_attr "name" leaf) as a eqn:Ha. revert leaf Ha.
  induction styles as [|style styles IH]; intros leaf Ha; [done|].
  rewrite for_each_snd_cons, (IH (apply_style leaf style).1).
  2:{ rewrite Ha. symmetry. apply same_but_colors_name, apply_style_frame. }
  rewrite apply_style_warnings, <- Ha. csimpl.
  by rewrite filter_app, fmap_app.
Qed.

End rules_more.

(** ** XML accessors *)

Section accessor_more.

Lemma find_None t e :
  find t e = None ↔ Forall (λ c, tag c ≠ t) (children e).
Proof.
  unfold find, findall. rewrite head_None. generalize (children e). intros cs.
  induction cs as [|c cs IH]; [done|].
  rewrite filter_cons, Forall_cons. destruct (decide (tag c = t)) as [Ht|Ht].
  - split; [done|]. by intros [? _].
  - rewrite IH. by split; [|intros [_ ?]].
Qed.

(** X8. [get_lexer_styles] and [get_global_styles] return the first direct
    child of the root with the tag of the section, and raise exactly when no
    direct child has that tag; a section nested deeper is not found. *)
Theorem sections_are_first_children root :
  (∀ lexer_styles,
     get_lexer_styles root = Returns lexer_styles ↔
     ∃ i, first_at "LexerStyles" (children root) i lexer_styles) ∧
  (get_lexer_styles root = Raises (ValueError "LexerStyles element not found") ↔
   Forall (λ c, tag c ≠ "LexerStyles") (children root)) ∧
  (∀ global_styles,
     get_global_styles root = Returns global_styles ↔
     ∃ i, first_at "GlobalStyles" (children root) i global_styles) ∧
  (get_global_styles root = Raises (ValueError "GlobalStyles element not found") ↔
   Forall (λ c, tag c ≠ "GlobalStyles") (children root)).
Proof.
  unfold get_lexer_styles, get_global_styles.
  repeat split.
  - destruct (find "LexerStyles" root) eqn:H; [|done].
    intros [= <-]. by apply find_first_at.
  - intros H%find_first_at. by rewrite H.
  - destruct (find "LexerStyles" root) eqn:H; [done|]. intros _. by apply find_None.
  - intros H%find_None. by rewrite H.
  - destruct (find "GlobalStyles" root) eqn:H; [|done].
    intros [= <-]. by apply find_first_at.
  - intros H%find_first_at. by rewrite H.
  - destruct (find "GlobalStyles" root) eqn:H; [done|]. intros _. by apply find_None.
  - intros H%find_None. by rewrite H.
Qed.

End accessor_more.

(** ** Style auditor *)

Section auditor_more.
Import StrOrder StrOrderFacts.

(** X10. When one visited [WordsStyle] leaf has no [name] attribute and
    another has one, sorting the names compares [None] with a string and the
    audit raises [TypeError]. *)
Theorem distinct_style_names_nameless lexer_styles leaf1 leaf2 n :
  leaf1 ∈ get_lexer_types lexer_styles ≫= get_words_styles →
  leaf2 ∈ get_lexer_types lexer_styles ≫= get_words_styles →
  get_attr "name" leaf1 = None → get_attr "name" leaf2 = Some n →
  get_distinct_style_names lexer_styles = Raises TypeError.
Proof.
  intros H1 H2 Hn1 Hn2. unfold get_distinct_style_names.
  set (X := list_to_set _ : gset (option string)).
  assert (None ∈ elements X) as HNone.
  { apply elem_of_elements, elem_of_list_to_set, list_elem_of_fmap.
    exists leaf1. by split. }
  assert (Some n ∈ elements X) as HSome.
  { apply elem_of_elements, elem_of_list_to_set, list_elem_of_fmap.
    exists leaf2. by split. }
  unfold py_sorted. destruct (elements X) as [|x [|y xs]] eqn:HX.
  - by apply not_elem_of_nil in HNone.
  - apply list_elem_of_singleton in HNone, HSome. congruence.
  - rewrite (proj2 (mapM_None id (x :: y :: xs))); [done|].
    apply Exists_exists. by exists None.
Qed.

Lemma distinct_style_names_nameless_witness :
  get_distinct_style_names
    (Sample.node "LexerStyles"
       [Sample.node "LexerType"
          [Sample.node "WordsStyle" []; Sample.keyword]])
  = Raises TypeError.
Proof.
  apply (distinct_style_names_nameless _ (Sample.node "WordsStyle" [])
           Sample.keyword "KEYWORD").
  - apply elem_of_cons. left. reflexivity.
  - apply elem_of_cons. right. apply elem_of_cons. left. reflexivity.
  - reflexivity.
  - vm_compute. reflexivity.
Defined.

Lemma py_sorted_list_to_set (X : gset (option string)) l :
  py_sorted X = Returns l → list_to_set l = X.
Proof.
  intros Hl. rewrite (py_sorted_Permutation X l Hl).
  apply list_to_set_elements_L.
Qed.

(** X11. With no rules at all, every style name is missing: the missing
    names are the distinct names, and the audit fails when and as listing
    the distinct names fails. *)
Theorem missing_style_names_no_rules lexer_styles :
  get_distinct_missing_style_names lexer_styles []
  = get_distinct_style_names lexer_styles.
Proof.
  unfold get_distinct_missing_style_names.
  destruct (get_distinct_style_names lexer_styles) as [l| |] eqn:Hl; [|done..].
  cbn [mbind outcome_bind]. csimpl.
  rewrite difference_empty_L.
  unfold get_distinct_style_names in Hl.
  by rewrite (py_sorted_list_to_set _ _ Hl).
Qed.

End auditor_more.

(** ** Configuration loader *)

Section loader_more.
Context {bytes : Type}.
Variable yaml_safe_load : bytes → option pyval.

Lemma for_each_collect_Returns_inv {A B} (body : A → outcome B) xs ys :
  for_each_collect body xs = Returns ys →
  Forall2 (λ x y, body x = Returns y) xs ys.
Proof.
  revert ys. induction xs as [|x xs IH]; intros ys; simpl.
  - intros [= <-]. constructor.
  - destruct (body x) as [y| |] eqn:Hy; [|done..]. cbn [mbind outcome_bind].
    destruct (for_each_collect body xs) as [ys'| |]; [|done..].
    cbn [mbind outcome_bind]. intros [= <-]. constructor; [done|by apply IH].
Qed.

Lemma for_each_collect_app_raises {A B} (body : A → outcome B) pre x post ys e :
  for_each_collect body pre = Returns ys → body x = Raises e →
  for_each_collect body (pre ++ x :: post) = Raises e.
Proof.
  revert ys. induction pre as [|p pre IH]; intros ys; simpl.
  - intros _ ->. done.
  - destruct (body p) as [y| |]; [|done..]. cbn [mbind outcome_bind].
    destruct (for_each_collect body pre) as [ys'| |] eqn:Hpre; [|done..].
    intros _ Hx. by rewrite (IH ys').
Qed.

(** The loop of the loader over the records under [styles]. *)
Lemma styles_of_config_records (d : gmap string pyval) records :
  d !! "styles" = Some (PList records) →
  styles_of_config (PDict d)
  = for_each_collect
      (λ data,
         names_arg ← py_get data "names" (PList []);
         fg ← py_get data "fgColor" PNone;
         bg ← py_get data "bgColor" PNone;
         Style_post_init names_arg fg bg)
      records.
Proof. intros Hd. unfold styles_of_config. simpl. by rewrite Hd. Qed.

Lemma load_styles_from_config_Returns path (w w' : world) styles :
  load_styles_from_config yaml_safe_load path w = (Returns styles, w') →
  ∃ b data, files w !! path = Some b ∧ yaml_safe_load b = Some data ∧
            styles_of_config data = Returns styles.
Proof.
  unfold load_styles_from_config, io_bind, read_file.
  destruct (files w !! path) as [b|]; [|done].
  destruct (yaml_safe_load b) as [data|] eqn:Hdata; [|done]. unfold io_lift.
  intros [= H _]. by exists b, data.
Qed.

Lemma load_Returns_constructed path (w w' : world) styles :
  load_styles_from_config yaml_safe_load path w = (Returns styles, w') →
  Forall constructed styles.
Proof.
  intros (b & data & _ & _ & Hstyles)%load_styles_from_config_Returns.
  unfold styles_of_config in Hstyles.
  destruct (py_get data "styles" _) as [entries| |]; [|done..].
  cbn [mbind outcome_bind] in Hstyles.
  destruct (py_iter entries) as [items| |]; [|done..].
  cbn [mbind outcome_bind] in Hstyles.
  apply for_each_collect_Returns_inv in Hstyles.
  induction Hstyles as [|item style items styles Hitem _ IH]; constructor; [|done].
  destruct (py_get item "names" _) as [n| |]; [|done..].
  cbn [mbind outcome_bind] in Hitem.
  destruct (py_get item "fgColor" _) as [f| |]; [|done..].
  cbn [mbind outcome_bind] in Hitem.
  destruct (py_get item "bgColor" _) as [g| |]; [|done..].
  cbn [mbind outcome_bind] in Hitem.
  by eapply Style_post_init_Returns.
Qed.

(** X13. The loader stops at the first record that fails: when the records
    before it load and the record alone makes the loader raise, loading the
    whole file raises the same exception, whatever comes after, and no rule
    is returned. *)
Theorem load_stops_at_first_invalid_record path (w : world) b
    (d : gmap string pyval) pre record post loaded e :
  files w !! path = Some b → yaml_safe_load b = Some (PDict d) →
  d !! "styles" = Some (PList (pre ++ record :: post)) →
  styles_of_config (PDict (<["styles" := PList pre]> d)) = Returns loaded →
  styles_of_config (PDict (<["styles" := PList [record]]> d)) = Raises e →
  load_styles_from_config yaml_safe_load path w = (Raises e, w).
Proof.
  intros Hb Hd Hrecords Hpre Hrecord.
  rewrite (load_styles_from_config_run yaml_safe_load path w b (PDict d)) by done.
  f_equal.
  rewrite (styles_of_config_records _ pre) in Hpre by apply lookup_insert_eq.
  rewrite (styles_of_config_records _ [record]) in Hrecord
    by apply lookup_insert_eq.
  rewrite (styles_of_config_records d _ Hrecords).
  eapply for_each_collect_app_raises; [done|].
  simpl in Hrecord.
  match type of Hrecord with
  | context [mbind _ ?m] => destruct m as [style| |]; [done| |done]
  end.
  by injection Hrecord as ->.
Qed.

(** X14. A first record without the key [names] is read as a rule with no
    name, and the loader raises the error of the constructor for it,
    whatever its colours and whatever the later records. *)
Theorem load_record_without_names path (w : world) b
    (d r : gmap string pyval) rest :
  files w !! path = Some b → yaml_safe_load b = Some (PDict d) →
  d !! "styles" = Some (PList (PDict r :: rest)) →
  r !! "names" = None →
  load_styles_from_config yaml_safe_load path w
  = (Raises (ValueError "names list cannot be empty"), w).
Proof.
  intros Hb Hd Hrecords Hr.
  rewrite (load_styles_from_config_run yaml_safe_load path w b (PDict d)) by done.
  rewrite (styles_of_config_records d _ Hrecords). simpl. by rewrite Hr.
Qed.

(** X15. A file whose content is not a mapping (an empty file, a sequence,
    a string) makes the loader raise [AttributeError], and a mapping whose
    [styles] is null makes it raise [TypeError]. *)
Theorem load_malformed_shape path (w : world) b data :
  files w !! path = Some b → yaml_safe_load b = Some data →
  ((∀ d, data ≠ PDict d) →
   load_styles_from_config yaml_safe_load path w = (Raises AttributeError, w)) ∧
  (∀ d, data = PDict d → d !! "styles" = Some PNone →
        load_styles_from_config yaml_safe_load path w = (Raises TypeError, w)).
Proof.
  intros Hb Hdata.
  rewrite (load_styles_from_config_run yaml_safe_load path w b data) by done.
  split.
  - intros Hshape. f_equal. destruct data as [|s|l|d]; try done.
    by destruct (Hshape d).
  - intros d -> Hd. f_equal. unfold styles_of_config. simpl. by rewrite Hd.
Qed.

End loader_more.

Section loader_examples.

Lemma load_stops_at_first_invalid_record_witness :
  load_styles_from_config Sample.yaml_safe_load "config.yaml"
    (mkWorld {["config.yaml" :=
                 Sample.YamlFile
                   (PDict {["styles" :=
                              PList [asdict (mkStyle ["KEYWORD"] (Some "$iris") None);
                                     PStr "oops";
                                     PNone]]})]} [])
  = (Raises AttributeError,
     mkWorld {["config.yaml" :=
                 Sample.YamlFile
                   (PDict {["styles" :=
                              PList [asdict (mkStyle ["KEYWORD"] (Some "$iris") None);
                                     PStr "oops";
                                     PNone]]})]} []).
Proof.
  apply (load_stops_at_first_invalid_record Sample.yaml_safe_load "config.yaml" _
           (Sample.YamlFile
              (PDict {["styles" :=
                         PList [asdict (mkStyle ["KEYWORD"] (Some "$iris") None);
                                PStr "oops"; PNone]]}))
           {["styles" :=
               PList [asdict (mkStyle ["KEYWORD"] (Some "$iris") None);
                      PStr "oops"; PNone]]}
           [asdict (mkStyle ["KEYWORD"] (Some "$iris") None)]
           (PStr "oops") [PNone]
           [mkStyle ["KEYWORD"] (Some "$iris") None]).
  - vm_compute. reflexivity.
  - reflexivity.
  - vm_compute. reflexivity.
  - vm_compute. reflexivity.
  - vm_compute. reflexivity.
Defined.

Lemma load_record_without_names_witness :
  load_styles_from_config Sample.yaml_safe_load "config.yaml"
    (mkWorld {["config.yaml" :=
                 Sample.YamlFile
                   (PDict {["styles" :=
                              PList [PDict {["fgColor" := PStr "$iris"]}]]})]} [])
  = (Raises (ValueError "names list cannot be empty"),
     mkWorld {["config.yaml" :=
                 Sample.YamlFile
                   (PDict {["styles" :=
                              PList [PDict {["fgColor" := PStr "$iris"]}]]})]} []).
Proof.
  apply (load_record_without_names Sample.yaml_safe_load "config.yaml" _
           (Sample.YamlFile
              (PDict {["styles" := PList [PDict {["fgColor" := PStr "$iris"]}]]}))
           {["styles" := PList [PDict {["fgColor" := PStr "$iris"]}]]}
           {["fgColor" := PStr "$iris"]} []).
  - vm_compute. reflexivity.
  - reflexivity.
  - vm_compute. reflexivity.
  - vm_compute. reflexivity.
Defined.

Lemma load_malformed_shape_witness :
  load_styles_from_config Sample.yaml_safe_load "config.yaml"
    (mkWorld {["config.yaml" := Sample.YamlFile PNone]} [])
  = (Raises AttributeError,
     mkWorld {["config.yaml" := Sample.YamlFile PNone]} []).
Proof.
  apply (load_malformed_shape Sample.yaml_safe_load "config.yaml" _
           (Sample.YamlFile PNone) PNone).
  - vm_compute. reflexivity.
  - reflexivity.
  - intros d. discriminate.
Defined.

End loader_examples.

(** ** The document through the builder *)

Section document_more.

Lemma uncolored_unfold e :
  uncolored e
  = mkElement (tag e) (delete "fgColor" (delete "bgColor" (attrib e)))
              (text e) (tail e) (uncolored <$> children e).
Proof. by destruct e. Qed.

Lemma uncolored_same_but_colors e e' :
  same_but_colors e e' → uncolored e' = uncolored e.
Proof.
  intros (Htag & Htext & Htail & Hchildren & Hother).
  rewrite (uncolored_unfold e), (uncolored_unfold e').
  rewrite Htag, Htext, Htail, Hchildren. f_equal.
  apply map_eq. intros k.
  destruct (decide (k = "fgColor")) as [->|Hfg]; [by rewrite !lookup_delete_eq|].
  rewrite !(lookup_delete_ne _ "fgColor") by done.
  destruct (decide (k = "bgColor")) as [->|Hbg]; [by rewrite !lookup_delete_eq|].
  rewrite !(lookup_delete_ne _ "bgColor") by done.
  by apply Hother.
Qed.

Lemma uncolored_apply_styles styles leaf :
  uncolored (apply_styles styles leaf).1 = uncolored leaf.
Proof. apply uncolored_same_but_colors, apply_styles_frame. Qed.

Lemma uncolored_in_each_child t f cs :
  (∀ c, uncolored (f c).1 = uncolored c) →
  uncolored <$> (in_each_child t f cs).1 = uncolored <$> cs.
Proof.
  intros Hf. induction cs as [|c cs IH]; [done|]. cbn [in_each_child].
  destruct (in_each_child t f cs) as [cs1 w2]. cbn [fst] in IH.
  destruct (decide (tag c = t)).
  - specialize (Hf c). destruct (f c) as [c1 w1]. csimpl in *. by rewrite Hf, IH.
  - csimpl. by rewrite IH.
Qed.

Lemma uncolored_in_first_child t f cs :
  (∀ c, uncolored (f c).1 = uncolored c) →
  uncolored <$> (in_first_child t f cs).1 = uncolored <$> cs.
Proof.
  intros Hf. induction cs as [|c cs IH]; [done|]. cbn [in_first_child].
  destruct (decide (tag c = t)).
  - specialize (Hf c). destruct (f c) as [c1 w1]. csimpl in *. by rewrite Hf.
  - destruct (in_first_child t f cs) as [cs1 w]. csimpl in *. by rewrite IH.
Qed.

Lemma uncolored_in_each t f parent :
  (∀ c, uncolored (f c).1 = uncolored c) →
  uncolored (in_each t f parent).1 = uncolored parent.
Proof.
  intros Hf. rewrite (uncolored_unfold parent), uncolored_unfold.
  rewrite in_each_tag, in_each_children, uncolored_in_each_child by done.
  unfold in_each. by destruct (in_each_child _ _ _).
Qed.

Lemma uncolored_in_first t f parent :
  (∀ c, uncolored (f c).1 = uncolored c) →
  uncolored (in_first t f parent).1 = uncolored parent.
Proof.
  intros Hf. rewrite (uncolored_unfold parent), uncolored_unfold.
  rewrite in_first_children, uncolored_in_first_child by done.
  unfold in_first. by destruct (in_first_child _ _ _).
Qed.

Lemma uncolored_update_lexer_styles styles root r1 :
  update_lexer_styles styles root = Returns r1 →
  uncolored r1.1 = uncolored root.
Proof.
  unfold update_lexer_styles. destruct (get_lexer_styles root); [|done..].
  intros [= <-]. apply uncolored_in_first. intros ls.
  apply uncolored_in_each. intros lt. apply uncolored_in_each.
  apply uncolored_apply_styles.
Qed.

Lemma uncolored_update_global_styles styles root r2 :
  update_global_styles styles root = Returns r2 →
  uncolored r2.1 = uncolored root.
Proof.
  unfold update_global_styles. destruct (get_global_styles root); [|done..].
  intros [= <-]. apply uncolored_in_first. intros gs.
  apply uncolored_in_each. apply uncolored_apply_styles.
Qed.

Lemma with_children_same e : with_children (children e) e = e.
Proof. by destruct e. Qed.

Lemma in_each_child_same t f cs :
  (∀ c, c ∈ cs → tag c = t → (f c).1 = c) → (in_each_child t f cs).1 = cs.
Proof.
  induction cs as [|c cs IH]; intros Hf; [done|]. cbn [in_each_child].
  assert ((in_each_child t f cs).1 = cs) as Hcs.
  { apply IH. intros c' Hc'. apply Hf. by right. }
  destruct (in_each_child t f cs) as [cs1 w2]. cbn [fst] in Hcs. subst cs1.
  destruct (decide (tag c = t)) as [Ht|Ht]; [|done].
  specialize (Hf c (list_elem_of_here _ _) Ht). destruct (f c) as [c1 w1].
  simpl in *. by subst c1.
Qed.

Lemma in_first_child_same t f cs :
  (∀ c, head (filter (λ c, tag c = t) cs) = Some c → (f c).1 = c) →
  (in_first_child t f cs).1 = cs.
Proof.
  induction cs as [|c cs IH]; intros Hf; [done|]. cbn [in_first_child].
  rewrite filter_cons in Hf. destruct (decide (tag c = t)) as [Ht|Ht].
  - specialize (Hf c eq_refl). destruct (f c) as [c1 w1]. simpl in *.
    by subst c1.
  - specialize (IH Hf). destruct (in_first_child t f cs) as [cs1 w].
    simpl in *. by subst cs1.
Qed.

Lemma in_each_same t f parent :
  (∀ c, c ∈ findall t parent → (f c).1 = c) → (in_each t f parent).1 = parent.
Proof.
  intros Hf. unfold in_each.
  assert ((in_each_child t f (children parent)).1 = children parent) as Hcs.
  { apply in_each_child_same. intros c Hc Ht. apply Hf.
    by apply list_elem_of_filter. }
  destruct (in_each_child _ _ _) as [cs w]. simpl in *. subst cs.
  apply with_children_same.
Qed.

Lemma in_first_same t f parent :
  (∀ c, find t parent = Some c → (f c).1 = c) → (in_first t f parent).1 = parent.
Proof.
  intros Hf. unfold in_first.
  assert ((in_first_child t f (children parent)).1 = children parent) as Hcs.
  { by apply in_first_child_same. }
  destruct (in_first_child _ _ _) as [cs w]. simpl in *. subst cs.
  apply with_children_same.
Qed.

(** When no visited leaf is named by a rule, the two passes give back the
    document itself. *)
Lemma passes_no_match styles root lexer_styles global_styles :
  get_lexer_styles root = Returns lexer_styles →
  get_global_styles root = Returns global_styles →
  (∀ leaf, leaf ∈ get_lexer_types lexer_styles ≫= get_words_styles →
           unmatched styles leaf) →
  (∀ leaf, leaf ∈ get_widget_styles global_styles → unmatched styles leaf) →
  ∃ w1 w2, update_lexer_styles styles root = Returns (root, w1) ∧
           update_global_styles styles root = Returns (root, w2).
Proof.
  intros Hls Hgs Hwords Hwidgets.
  unfold update_lexer_styles, update_global_styles. rewrite Hls, Hgs.
  cbn [mbind outcome_bind].
  assert (∀ {A} (r : A * list string), r = (r.1, r.2)) as Hpair by by intros ? [].
  eexists _, _. split.
  - rewrite (Hpair _ (in_first "LexerStyles" _ root)). do 2 f_equal.
    apply in_first_same. intros ls Hfind.
    unfold get_lexer_styles in Hls. rewrite Hfind in Hls. injection Hls as ->.
    apply in_each_same. intros lt Hlt.
    apply in_each_same. intros leaf Hleaf.
    apply apply_styles_unmatched, Hwords.
    apply list_elem_of_bind. by exists lt.
  - rewrite (Hpair _ (in_first "GlobalStyles" _ root)). do 2 f_equal.
    apply in_first_same. intros gs Hfind.
    unfold get_global_styles in Hgs. rewrite Hfind in Hgs. injection Hgs as ->.
    apply in_each_same. intros leaf Hleaf.
    by apply apply_styles_unmatched, Hwidgets.
Qed.

Lemma first_at_unique t cs i j c c' :
  first_at t cs i c → first_at t cs j c' → i = j.
Proof.
  intros (Hi & Hc & Hfi) (Hj & Hc' & Hfj).
  destruct (Nat.lt_trichotomy i j) as [Hlt|[?|Hlt]]; [|done|].
  - by destruct (Hfj i c Hlt Hi).
  - by destruct (Hfi j c' Hlt Hj).
Qed.

Lemma in_first_child_not_first t f cs j c :
  cs !! j = Some c → ¬ first_at t cs j c →
  (in_first_child t f cs).1 !! j = Some c.
Proof.
  revert j. induction cs as [|c0 cs IH]; intros j Hj Hnot; [done|].
  cbn [in_first_child]. destruct (decide (tag c0 = t)) as [Ht|Ht].
  - destruct (f c0) as [c1 w]. destruct j as [|j]; [|done].
    injection Hj as ->. destruct Hnot. repeat split; [done|]. intros; lia.
  - specialize (IH (pred j)). destruct (in_first_child t f cs) as [cs1 w].
    destruct j as [|j]; [done|]. apply IH; [done|].
    intros (Hj' & Hc & Hfirst). apply Hnot. repeat split; [done..|].
    intros [|i] c' Hi Hc'; [by injection Hc' as <-|].
    apply (Hfirst i); [lia|done].
Qed.

(** A child of the root that is not the first section of either kind comes
    out of the two passes as it was. *)
Lemma passes_other_children styles root r1 r2 j c :
  update_lexer_styles styles root = Returns r1 →
  update_global_styles styles r1.1 = Returns r2 →
  children root !! j = Some c →
  ¬ first_at "LexerStyles" (children root) j c →
  ¬ first_at "GlobalStyles" (children root) j c →
  children r2.1 !! j = Some c.
Proof.
  intros H1 H2 Hj Hls Hgs.
  pose proof (find_global_after_lexer styles root r1 H1) as Hfind.
  revert H1 H2. unfold update_lexer_styles, update_global_styles.
  destruct (get_lexer_styles root); [|done..]. intros [= <-].
  destruct (get_global_styles _); [|done..]. intros [= <-].
  rewrite in_first_children. apply in_first_child_not_first.
  - rewrite in_first_children. by apply in_first_child_not_first.
  - intros Hfirst. apply Hgs.
    assert (find "GlobalStyles" root = Some c) as Hroot.
    { rewrite <- Hfind. apply find_first_at. by exists j. }
    apply find_first_at in Hroot as [i Hi].
    assert (i = j) as <-; [|done].
    eapply first_at_unique; [|exact Hfirst].
    rewrite in_first_children. apply in_first_child_first_at; [|done..].
    intros c'. apply in_each_tag.
Qed.

End document_more.

(** ** Runs of the builder *)

Section build_more.
Context {bytes : Type}.
Variable ET_parse : bytes → option Element.
Variable ET_write : Element → bytes.
Variable yaml_safe_load : bytes → option pyval.

Lemma parse_xml_file_world path (w : world) :
  (parse_xml_file ET_parse path w).2 = w.
Proof.
  unfold parse_xml_file, io_bind, read_file.
  destruct (files w !! path) as [b|]; [|done]. by destruct (ET_parse b).
Qed.

(** The stages of a run: the rules are loaded, then the document is parsed,
    then the two passes run, then the file is written. *)
Lemma create_or_update_template_stages source target config (w : world) :
  let run := create_or_update_template ET_parse ET_write yaml_safe_load
               source target config w in
  (run.2 = w ∧ run.1 ≠ Returns () ∧
   run.1 = match (load_styles_from_config yaml_safe_load config w).1 with
           | Returns _ =>
               match (parse_xml_file ET_parse source w).1 with
               | Returns _ => run.1
               | Raises e => Raises e
               | Untyped => Untyped
               end
           | Raises e => Raises e
           | Untyped => Untyped
           end) ∨
  ∃ styles root,
    load_styles_from_config yaml_safe_load config w = (Returns styles, w) ∧
    parse_xml_file ET_parse source w = (Returns root, w) ∧
    ((∃ r1 r2,
        update_lexer_styles styles root = Returns r1 ∧
        update_global_styles styles r1.1 = Returns r2 ∧
        run = (Returns (),
               mkWorld (<[target := ET_write r2.1]> (files w))
                       ((log w ++ r1.2) ++ r2.2))) ∨
     (run.1 ≠ Returns () ∧ files run.2 = files w ∧
      ∃ more, log run.2 = (log w ++ more)%list)).
Proof.
  intros run.
  destruct (load_styles_from_config yaml_safe_load config w) as [o w0] eqn:Hload.
  pose proof (load_styles_from_config_world yaml_safe_load config w) as Hw.
  rewrite Hload in Hw. simpl in Hw. subst w0.
  destruct o as [styles|e|]; cycle 1.
  { left. assert (run = (Raises e, w)) as ->; [|done].
    subst run. unfold create_or_update_template, io_bind. by rewrite Hload. }
  { left. assert (run = (Untyped, w)) as ->; [|done].
    subst run. unfold create_or_update_template, io_bind. by rewrite Hload. }
  destruct (parse_xml_file ET_parse source w) as [o w0] eqn:Hparse.
  pose proof (parse_xml_file_world source w) as Hw.
  rewrite Hparse in Hw. simpl in Hw. subst w0.
  destruct o as [root|e|]; cycle 1.
  { left. assert (run = (Raises e, w)) as ->; [|done].
    subst run. unfold create_or_update_template, io_bind.
    by rewrite Hload, Hparse. }
  { left. assert (run = (Untyped, w)) as ->; [|done].
    subst run. unfold create_or_update_template, io_bind.
    by rewrite Hload, Hparse. }
  right. exists styles, root. split; [done|]. split; [done|].
  subst run.
  rewrite (create_or_update_template_run _ _ _ _ _ _ _ styles root Hload Hparse).
  destruct (update_lexer_styles styles root) as [r1|e|] eqn:H1; cycle 1.
  { right. repeat split; [done|]. exists []. by rewrite app_nil_r. }
  { right. repeat split; [done|]. exists []. by rewrite app_nil_r. }
  cbn zeta.
  destruct (update_global_styles styles r1.1) as [r2|e|] eqn:H2.
  - left. by exists r1, r2.
  - right. repeat split; [done|]. by exists r1.2.
  - right. repeat split; [done|]. by exists r1.2.
Qed.

(** X17. The builder reads the rules before the document: when the rules
    fail to load it raises their error without parsing the source, and when
    the rules load and the source cannot be read or parsed it raises that
    error; neither run changes anything. *)
Theorem build_input_errors source target config (w : world) e :
  ((load_styles_from_config yaml_safe_load config w).1 = Raises e →
   create_or_update_template ET_parse ET_write yaml_safe_load
     source target config w = (Raises e, w)) ∧
  (∀ styles,
     load_styles_from_config yaml_safe_load config w = (Returns styles, w) →
     (parse_xml_file ET_parse source w).1 = Raises e →
     create_or_update_template ET_parse ET_write yaml_safe_load
       source target config w = (Raises e, w)).
Proof.
  split.
  - intros Hload.
    destruct (create_or_update_template_stages source target config w)
      as [(Hw & _ & Hrun)|(styles & root & Hload' & _)].
    + rewrite Hload in Hrun. by apply injective_projections.
    + by rewrite Hload' in Hload.
  - intros styles Hload Hparse.
    destruct (create_or_update_template_stages source target config w)
      as [(Hw & _ & Hrun)|(styles' & root & _ & Hparse' & _)].
    + rewrite Hload, Hparse in Hrun. by apply injective_projections.
    + by rewrite Hparse' in Hparse.
Qed.

(** X18. A run that returns has written to the target a document that
    differs from the parsed source in colour attributes only: with [fgColor]
    and [bgColor] erased everywhere the two are the same document. *)
Theorem build_changes_only_colors source target config (w : world) :
  let run := create_or_update_template ET_parse ET_write yaml_safe_load
               source target config w in
  run.1 = Returns () →
  ∃ root out,
    parse_xml_file ET_parse source w = (Returns root, w) ∧
    files run.2 = <[target := ET_write out]> (files w) ∧
    uncolored out = uncolored root.
Proof.
  intros run Hret. subst run.
  destruct (create_or_update_template_stages source target config w)
    as [(_ & Hne & _)|(styles & root & _ & Hparse &
         [(r1 & r2 & H1 & H2 & Hrun)|(Hne & _)])]; [done| |done].
  exists root, r2.1. split; [done|]. split; [by rewrite Hrun|].
  rewrite (uncolored_update_global_styles _ _ _ H2).
  by apply (uncolored_update_lexer_styles styles).
Qed.

(** X20. Only the first [LexerStyles] and the first [GlobalStyles] child of
    the root are styled: every other child of the root, a second section of
    either kind included, is written as it was. *)
Theorem build_other_children_unchanged source target config (w : world) :
  let run := create_or_update_template ET_parse ET_write yaml_safe_load
               source target config w in
  run.1 = Returns () →
  ∃ root out,
    parse_xml_file ET_parse source w = (Returns root, w) ∧
    files run.2 = <[target := ET_write out]> (files w) ∧
    ∀ j c,
      children root !! j = Some c →
      ¬ first_at "LexerStyles" (children root) j c →
      ¬ first_at "GlobalStyles" (children root) j c →
      children out !! j = Some c.
Proof.
  intros run Hret. subst run.
  destruct (create_or_update_template_stages source target config w)
    as [(_ & Hne & _)|(styles & root & _ & Hparse &
         [(r1 & r2 & H1 & H2 & Hrun)|(Hne & _)])]; [done| |done].
  exists root, r2.1. split; [done|]. split; [by rewrite Hrun|].
  intros j c. by apply (passes_other_children styles root r1 r2).
Qed.

End build_more.

Section build_more_examples.

Lemma build_input_errors_witness :
  create_or_update_template Sample.ET_parse Sample.ET_write
    Sample.yaml_safe_load "stylers.xml" "template.xml" "config.yaml"
    Sample2.world_no_config
  = (Raises OSError, Sample2.world_no_config).
Proof.
  apply (build_input_errors Sample.ET_parse Sample.ET_write
           Sample.yaml_safe_load "stylers.xml" "template.xml" "config.yaml"
           Sample2.world_no_config OSError).
  vm_compute. reflexivity.
Defined.

Lemma build_changes_only_colors_witness :
  ∃ root out,
    parse_xml_file Sample.ET_parse "stylers.xml"
      (Sample.world_with Sample.stylers)
    = (Returns root, Sample.world_with Sample.stylers) ∧
    files (create_or_update_template Sample.ET_parse Sample.ET_write
             Sample.yaml_safe_load "stylers.xml" "template.xml" "config.yaml"
             (Sample.world_with Sample.stylers)).2
    = <["template.xml" := Sample.ET_write out]>
        (files (Sample.world_with Sample.stylers)) ∧
    uncolored out = uncolored root.
Proof.
  apply (build_changes_only_colors Sample.ET_parse Sample.ET_write
           Sample.yaml_safe_load "stylers.xml" "template.xml" "config.yaml"
           (Sample.world_with Sample.stylers)).
  vm_compute. reflexivity.
Defined.

Lemma unmatched_no_rules leaf : unmatched [] leaf.
Proof. intros style n Hstyle. by apply not_elem_of_nil in Hstyle. Qed.

Lemma second_section_not_first j :
  j = 2 →
  ¬ first_at "LexerStyles" (children Sample2.stylers_twice) j Sample.lexer_styles ∧
  ¬ first_at "GlobalStyles" (children Sample2.stylers_twice) j Sample.lexer_styles.
Proof.
  intros ->. split.
  - intros (_ & _ & Hfirst).
    apply (Hfirst 0 Sample.lexer_styles); [lia|reflexivity|reflexivity].
  - intros (_ & Htag & _). discriminate Htag.
Qed.

Lemma build_other_children_unchanged_witness :
  ∃ out,
    files (create_or_update_template Sample.ET_parse Sample.ET_write
             Sample.yaml_safe_load "stylers.xml" "template.xml" "config.yaml"
             (Sample.world_with Sample2.stylers_twice)).2
    = <["template.xml" := Sample.ET_write out]>
        (files (Sample.world_with Sample2.stylers_twice)) ∧
    children out !! 2 = Some Sample.lexer_styles.
Proof.
  destruct (build_other_children_unchanged Sample.ET_parse Sample.ET_write
              Sample.yaml_safe_load "stylers.xml" "template.xml" "config.yaml"
              (Sample.world_with Sample2.stylers_twice))
    as (root & out & Hparse & Hfiles & Hother).
  - vm_compute. reflexivity.
  - exists out. split; [exact Hfiles|].
    assert (root = Sample2.stylers_twice) as ->.
    { clear Hfiles Hother. apply (f_equal fst) in Hparse.
      change (Returns Sample2.stylers_twice = Returns root) in Hparse.
      injection Hparse as <-. reflexivity. }
    clear Hparse Hfiles.
    apply Hother;
      [reflexivity
      |exact (proj1 (second_section_not_first 2 eq_refl))
      |exact (proj2 (second_section_not_first 2 eq_refl))].
Defined.

End build_more_examples.

(** ** Command dispatcher *)

Section main_more.
Context {bytes : Type}.
Variable ET_parse : bytes → option Element.
Variable ET_write : Element → bytes.
Variable yaml_safe_load : bytes → option pyval.
Variable yaml_dump : pyval → bytes.
Variable subprocess_run : list string → @IO bytes unit.
Import StrOrder StrOrderFacts.

Lemma constructed_new_Style style :
  constructed style →
  new_Style (names style) (fgColor style) (bgColor style) = Returns style.
Proof.
  intros (Hns & Hsorted & Hc & Hfg & Hbg).
  destruct (new_Style_checked (names style) (fgColor style) (bgColor style))
    as (l & Hl & Hs & Hm); [done..|by apply check_prefix_accepted
                              |by apply check_prefix_accepted|].
  rewrite Hl. destruct style as [ns fg bg]. simpl in *. do 2 f_equal.
  by apply StronglySorted_lt_unique.
Qed.

Lemma for_each_collect_same {A} (body : A → outcome A) xs :
  Forall (λ x, body x = Returns x) xs → for_each_collect body xs = Returns xs.
Proof. induction 1 as [|x xs Hx _ IH]; [done|]. simpl. by rewrite Hx, IH. Qed.

(** The run of the formatting command. *)
Lemma main_format_config_file_run args (w : world) :
  Namespace.command args = Command.format_config_file →
  main ET_parse ET_write yaml_safe_load yaml_dump subprocess_run args w
  = match load_styles_from_config yaml_safe_load (Namespace.config args) w with
    | (Returns styles, _) =>
        (Returns [],
         mkWorld (<[Namespace.config args := yaml_dump (config_of_styles styles)]>
                    (files w)) (log w))
    | (Raises e, _) => (Raises e, w)
    | (Untyped, _) => (Untyped, w)
    end.
Proof.
  intros Hcmd. unfold main. rewrite Hcmd. unfold io_bind at 1.
  pose proof (load_styles_from_config_world yaml_safe_load
                (Namespace.config args) w) as Hw.
  destruct (load_styles_from_config _ _ w) as [[styles|e|] w0];
    simpl in Hw; subst w0; done.
Qed.

(** X21. Formatting is stable: provided [yaml.safe_load] reads back what
    [yaml.dump] wrote, running the formatting command on a configuration it
    has just formatted succeeds and leaves the file exactly as it is. *)
Theorem main_format_config_file_idempotent args (w : world) :
  Namespace.command args = Command.format_config_file →
  (∀ data, yaml_safe_load (yaml_dump data) = Some data) →
  let run := main ET_parse ET_write yaml_safe_load yaml_dump subprocess_run
               args w in
  run.1 = Returns [] →
  main ET_parse ET_write yaml_safe_load yaml_dump subprocess_run args run.2
  = (Returns [], run.2).
Proof.
  intros Hcmd Hyaml run Hret. subst run.
  rewrite (main_format_config_file_run args w Hcmd) in Hret |- *.
  destruct (load_styles_from_config _ _ w) as [[styles|e|] w0] eqn:Hload;
    [|done..].
  apply load_Returns_constructed in Hload as Hstyles.
  cbn [fst snd]. rewrite (main_format_config_file_run _ _ Hcmd).
  rewrite (load_styles_from_config_run yaml_safe_load _ _
             (yaml_dump (config_of_styles styles)) (config_of_styles styles));
    [|by apply lookup_insert_eq|by apply Hyaml].
  rewrite styles_of_config_saved, for_each_collect_same.
  - cbn [files log]. by rewrite insert_insert_eq.
  - eapply Forall_impl; [exact Hstyles|]. apply constructed_new_Style.
Qed.

(** X22. A formatting command that does not succeed has changed nothing:
    the configuration is rewritten only after every rule has loaded. *)
Theorem main_format_config_file_failure args (w : world) :
  Namespace.command args = Command.format_config_file →
  let run := main ET_parse ET_write yaml_safe_load yaml_dump subprocess_run
               args w in
  run.1 ≠ Returns [] → run.2 = w.
Proof.
  intros Hcmd run Hfail. subst run.
  rewrite (main_format_config_file_run args w Hcmd) in Hfail |- *.
  by destruct (load_styles_from_config _ _ w) as [[styles|e|] w0].
Qed.

(** X23. The two reporting commands only read: whether they print their
    report or raise, the files and the log are as before. *)
Theorem main_reports_read_only args (w : world) :
  Namespace.command args = Command.get_distinct_style_names ∨
  Namespace.command args = Command.get_distinct_missing_style_names →
  (main ET_parse ET_write yaml_safe_load yaml_dump subprocess_run args w).2 = w.
Proof.
  intros [Hcmd|Hcmd]; unfold main; rewrite Hcmd.
  - unfold io_bind at 1.
    pose proof (parse_xml_file_world ET_parse (Namespace.source args) w) as Hw.
    destruct (parse_xml_file _ _ w) as [[root|e|] w0]; simpl in Hw; subst w0;
      [|done..].
    unfold io_bind, io_lift, io_ret.
    destruct (get_lexer_styles root) as [ls|e|]; [|done..].
    by destruct (get_distinct_style_names ls).
  - unfold io_bind at 1.
    pose proof (load_styles_from_config_world yaml_safe_load
                  (Namespace.config args) w) as Hw.
    destruct (load_styles_from_config _ _ w) as [[styles|e|] w0];
      simpl in Hw; subst w0; [|done..].
    unfold io_bind at 1.
    pose proof (parse_xml_file_world ET_parse (Namespace.source args) w) as Hw.
    destruct (parse_xml_file _ _ w) as [[root|e|] w0]; simpl in Hw; subst w0;
      [|done..].
    unfold io_bind, io_lift, io_ret.
    destruct (get_lexer_styles root) as [ls|e|]; [|done..].
    by destruct (get_distinct_missing_style_names ls styles).
Qed.

End main_more.

Section main_examples.

Lemma main_format_config_file_idempotent_witness :
  let run := main Sample.ET_parse Sample.ET_write Sample.yaml_safe_load
               Sample.yaml_dump Sample2.no_process
               (Sample2.args Command.format_config_file)
               Sample2.world_unformatted in
  main Sample.ET_parse Sample.ET_write Sample.yaml_safe_load
    Sample.yaml_dump Sample2.no_process
    (Sample2.args Command.format_config_file) run.2
  = (Returns [], run.2).
Proof.
  apply (main_format_config_file_idempotent Sample.ET_parse Sample.ET_write
           Sample.yaml_safe_load Sample.yaml_dump Sample2.no_process
           (Sample2.args Command.format_config_file)
           Sample2.world_unformatted).
  - reflexivity.
  - intros data. reflexivity.
  - vm_compute. reflexivity.
Defined.

Lemma main_format_config_file_failure_witness :
  (main Sample.ET_parse Sample.ET_write Sample.yaml_safe_load
     Sample.yaml_dump Sample2.no_process
     (Sample2.args Command.format_config_file) Sample2.world_no_config).2
  = Sample2.world_no_config.
Proof.
  apply (main_format_config_file_failure Sample.ET_parse Sample.ET_write
           Sample.yaml_safe_load Sample.yaml_dump Sample2.no_process
           (Sample2.args Command.format_config_file) Sample2.world_no_config).
  - reflexivity.
  - vm_compute. discriminate.
Defined.

Lemma main_reports_read_only_witness :
  (main Sample.ET_parse Sample.ET_write Sample.yaml_safe_load
     Sample.yaml_dump Sample2.no_process
     (Sample2.args Command.get_distinct_missing_style_names)
     (Sample.world_with Sample.stylers)).2
  = Sample.world_with Sample.stylers.
Proof.
  apply (main_reports_read_only Sample.ET_parse Sample.ET_write
           Sample.yaml_safe_load Sample.yaml_dump Sample2.no_process
           (Sample2.args Command.get_distinct_missing_style_names)
           (Sample.world_with Sample.stylers)).
  right. reflexivity.
Defined.

End main_examples.

(** ** Names as a set, and the audit against the builder *)

Section names_more.
Import StrOrder StrOrderFacts.

Lemma new_Style_steps ns fg bg :
  ns ≠ [] → is_Some fg ∨ is_Some bg →
  new_Style ns fg bg
  = (_ ← check_prefix "fgColor must start with '$' if provided" (py_opt fg);
     _ ← check_prefix "bgColor must start with '$' if provided" (py_opt bg);
     new_Style ns fg bg).
Proof.
  intros Hns Hc. unfold new_Style, Style_post_init.
  assert (truthy (py_strs ns) = true) as -> by by destruct ns.
  assert (is_None (py_opt fg) && is_None (py_opt bg) = false) as ->.
  { by destruct Hc as [[? ->]|[? ->]]; [|destruct fg]. }
  cbn [negb]. cbv iota.
  destruct (check_prefix _ (py_opt fg)) as [[]| |]; [|done..].
  cbn [mbind outcome_bind].
  by destruct (check_prefix _ (py_opt bg)) as [[]| |].
Qed.

(** With some name given, the outcome depends on the names only through the
    sorted list that is stored. *)
Lemma new_Style_nonempty ns ns' fg bg :
  ns ≠ [] → ns' ≠ [] →
  new_Style ns fg bg = new_Style ns' fg bg ∨
  ∃ l l',
    new_Style ns fg bg = Returns (mkStyle l fg bg) ∧
    sorted_distinct l (λ s, s ∈ ns) ∧
    new_Style ns' fg bg = Returns (mkStyle l' fg bg) ∧
    sorted_distinct l' (λ s, s ∈ ns').
Proof.
  intros Hns Hns'.
  destruct (decide (fg = None ∧ bg = None)) as [[-> ->]|Hsome].
  { left. by rewrite !new_Style_no_color. }
  assert (is_Some fg ∨ is_Some bg) as Hc.
  { destruct fg, bg; eauto. by destruct Hsome. }
  destruct (check_prefix_py_opt "fgColor must start with '$' if provided" fg)
    as [Hfg|Hfg].
  2:{ left. rewrite (new_Style_steps ns), (new_Style_steps ns') by done.
      by rewrite Hfg. }
  destruct (check_prefix_py_opt "bgColor must start with '$' if provided" bg)
    as [Hbg|Hbg].
  2:{ left. rewrite (new_Style_steps ns), (new_Style_steps ns') by done.
      rewrite Hfg. cbn [mbind outcome_bind]. by rewrite Hbg. }
  right.
  destruct (new_Style_checked ns fg bg) as (l & Hl & Hsd); [done..|].
  destruct (new_Style_checked ns' fg bg) as (l' & Hl' & Hsd'); [done..|].
  by exists l, l'.
Qed.

(** X24. Only the set of names given to the constructor matters: two lists
    with the same elements, in any order and with any repetition, give the
    same rule or the same error. *)
Theorem new_Style_names_as_set ns ns' fg bg :
  (∀ s, s ∈ ns ↔ s ∈ ns') →
  new_Style ns fg bg = new_Style ns' fg bg.
Proof.
  intros Hsame.
  destruct ns as [|n ns], ns' as [|n' ns'].
  - done.
  - assert (n' ∈ ([] : list string)) as Hin by (apply Hsame; by left).
    by apply not_elem_of_nil in Hin.
  - assert (n ∈ ([] : list string)) as Hin by (apply Hsame; by left).
    by apply not_elem_of_nil in Hin.
  - destruct (new_Style_nonempty (n :: ns) (n' :: ns') fg bg)
      as [Heq|(l & l' & Hl & [Hs Hm] & Hl' & [Hs' Hm'])]; [done..|].
    rewrite Hl, Hl'. do 2 f_equal. apply StronglySorted_lt_unique; [done..|].
    intros s. by rewrite Hm, Hm'.
Qed.

Lemma new_Style_names_as_set_witness :
  new_Style ["b"; "a"; "b"] (Some "$iris") None
  = new_Style ["a"; "b"] (Some "$iris") None.
Proof.
  apply (new_Style_names_as_set ["b"; "a"; "b"] ["a"; "b"] (Some "$iris") None).
  intros s. split; intros Hs.
  - apply elem_of_cons in Hs as [->|Hs]; [right; left|].
    apply elem_of_cons in Hs as [->|Hs]; [left|].
    right. exact Hs.
  - apply elem_of_cons in Hs as [->|Hs]; [right; left|right; right; exact Hs].
Defined.

(** X25. A leaf whose name the audit reports as missing is a leaf the rules
    leave alone: running the rules on it gives the leaf back. *)
Theorem missing_names_are_unstyled lexer_styles styles l leaf n :
  get_distinct_missing_style_names lexer_styles styles = Returns l →
  Some n ∈ l → get_attr "name" leaf = Some n →
  (apply_styles styles leaf).1 = leaf.
Proof.
  intros Hl Hn Hname. apply apply_styles_unmatched.
  unfold get_distinct_missing_style_names in Hl.
  destruct (get_distinct_style_names lexer_styles) as [existing| |]; [|done..].
  cbn [mbind outcome_bind] in Hl.
  apply py_sorted_Permutation in Hl. rewrite Hl in Hn.
  apply elem_of_elements, elem_of_difference in Hn as [_ Hn].
  intros style n' Hstyle Hn' Heq. apply Hn.
  apply elem_of_list_to_set, list_elem_of_fmap. exists n. split; [done|].
  apply list_elem_of_bind. exists style. split; [congruence|done].
Qed.

Lemma missing_names_are_unstyled_witness :
  (apply_styles [mkStyle ["KEYWORD"] (Some "$iris") None] Sample.comment).1
  = Sample.comment.
Proof.
  apply (missing_names_are_unstyled Sample.lexer_styles
           [mkStyle ["KEYWORD"] (Some "$iris") None]
           [Some "COMMENT"] Sample.comment "COMMENT").
  - vm_compute. reflexivity.
  - apply elem_of_cons. left. reflexivity.
  - vm_compute. reflexivity.
Defined.

End names_more.

(** ** Building again from the template *)

Section rebuild_more.

Lemma in_first_fst t f e :
  (in_first t f e).1 = with_children (in_first_child t f (children e)).1 e.
Proof. unfold in_first. by destruct (in_first_child _ _ _). Qed.

Lemma in_each_fst t f e :
  (in_each t f e).1 = with_children (in_each_child t f (children e)).1 e.
Proof. unfold in_each. by destruct (in_each_child _ _ _). Qed.

Lemma with_children_twice cs cs' e :
  with_children cs' (with_children cs e) = with_children cs' e.
Proof. done. Qed.

Lemma in_first_tag t f parent : tag (in_first t f parent).1 = tag parent.
Proof. by rewrite in_first_fst. Qed.

Lemma in_first_child_fst t f cs :
  (in_first_child t f cs).1 = map_first t (λ c, (f c).1) cs.
Proof.
  induction cs as [|c cs IH]; [done|]. cbn [in_first_child map_first].
  destruct (decide (tag c = t)); [by destruct (f c)|].
  destruct (in_first_child t f cs) as [cs1 w]. cbn [fst] in *. by rewrite IH.
Qed.

Lemma in_each_child_fst t f cs :
  (in_each_child t f cs).1 = map_each t (λ c, (f c).1) cs.
Proof.
  induction cs as [|c cs IH]; [done|]. cbn [in_each_child].
  destruct (in_each_child t f cs) as [cs1 w2]. cbn [fst] in IH.
  unfold map_each in *. csimpl. rewrite <- IH.
  by destruct (decide (tag c = t)); [destruct (f c)|].
Qed.

Lemma map_first_idem t g cs :
  (∀ c, tag (g c) = tag c) → (∀ c, g (g c) = g c) →
  map_first t g (map_first t g cs) = map_first t g cs.
Proof.
  intros Htag Hidem. induction cs as [|c cs IH]; [done|]. cbn [map_first].
  destruct (decide (tag c = t)) as [Ht|Ht]; cbn [map_first].
  - rewrite decide_True by (by rewrite Htag). by rewrite Hidem.
  - rewrite decide_False by done. by rewrite IH.
Qed.

Lemma map_each_idem t g cs :
  (∀ c, tag (g c) = tag c) → (∀ c, g (g c) = g c) →
  map_each t g (map_each t g cs) = map_each t g cs.
Proof.
  intros Htag Hidem. unfold map_each. rewrite <- list_fmap_compose.
  apply list_fmap_ext. intros _ c _. simpl.
  destruct (decide (tag c = t)) as [Ht|Ht].
  - rewrite decide_True by (by rewrite Htag). apply Hidem.
  - by rewrite decide_False.
Qed.

Lemma map_first_comm t1 t2 g1 g2 cs :
  t1 ≠ t2 → (∀ c, tag (g1 c) = tag c) → (∀ c, tag (g2 c) = tag c) →
  map_first t1 g1 (map_first t2 g2 cs) = map_first t2 g2 (map_first t1 g1 cs).
Proof.
  intros Hne Htag1 Htag2. induction cs as [|c cs IH]; [done|]. cbn [map_first].
  destruct (decide (tag c = t2)) as [H2|H2], (decide (tag c = t1)) as [H1|H1];
    cbn [map_first].
  - congruence.
  - rewrite decide_False by (rewrite Htag2; congruence).
    by rewrite decide_True.
  - rewrite decide_True by done.
    by rewrite decide_False by (rewrite Htag1; congruence).
  - rewrite !decide_False by done. by rewrite IH.
Qed.

Lemma in_first_child_idem t f cs :
  (∀ c, tag (f c).1 = tag c) → (∀ c, (f (f c).1).1 = (f c).1) →
  (in_first_child t f (in_first_child t f cs).1).1 = (in_first_child t f cs).1.
Proof. intros. rewrite !in_first_child_fst. by apply map_first_idem. Qed.

Lemma in_each_child_idem t f cs :
  (∀ c, tag (f c).1 = tag c) → (∀ c, (f (f c).1).1 = (f c).1) →
  (in_each_child t f (in_each_child t f cs).1).1 = (in_each_child t f cs).1.
Proof. intros. rewrite !in_each_child_fst. by apply map_each_idem. Qed.

Lemma in_first_child_comm t1 t2 f1 f2 cs :
  t1 ≠ t2 → (∀ c, tag (f1 c).1 = tag c) → (∀ c, tag (f2 c).1 = tag c) →
  (in_first_child t1 f1 (in_first_child t2 f2 cs).1).1
  = (in_first_child t2 f2 (in_first_child t1 f1 cs).1).1.
Proof. intros. rewrite !in_first_child_fst. by apply map_first_comm. Qed.

Lemma in_first_idem t f e :
  (∀ c, tag (f c).1 = tag c) → (∀ c, (f (f c).1).1 = (f c).1) →
  (in_first t f (in_first t f e).1).1 = (in_first t f e).1.
Proof.
  intros Htag Hidem. rewrite !in_first_fst. destruct e. simpl.
  unfold with_children. simpl. by rewrite in_first_child_idem.
Qed.

Lemma in_each_idem t f e :
  (∀ c, tag (f c).1 = tag c) → (∀ c, (f (f c).1).1 = (f c).1) →
  (in_each t f (in_each t f e).1).1 = (in_each t f e).1.
Proof.
  intros Htag Hidem. rewrite !in_each_fst. destruct e. simpl.
  unfold with_children. simpl. by rewrite in_each_child_idem.
Qed.

Lemma in_first_comm t1 t2 f1 f2 e :
  t1 ≠ t2 → (∀ c, tag (f1 c).1 = tag c) → (∀ c, tag (f2 c).1 = tag c) →
  (in_first t1 f1 (in_first t2 f2 e).1).1
  = (in_first t2 f2 (in_first t1 f1 e).1).1.
Proof.
  intros Hne Htag1 Htag2. rewrite !in_first_fst. destruct e. simpl.
  unfold with_children. simpl. by rewrite in_first_child_comm.
Qed.

Lemma apply_styles_tag styles leaf : tag (apply_styles styles leaf).1 = tag leaf.
Proof. by destruct (apply_styles_frame styles leaf) as (? & _). Qed.

Lemma find_is_Some t e : is_Some (find t e) ↔ t ∈ tag <$> children e.
Proof.
  unfold find, findall. rewrite head_is_Some, list_elem_of_fmap. split.
  - intros Hne. destruct (filter _ _) as [|c cs] eqn:Hf; [done|].
    assert (c ∈ filter (λ c, tag c = t) (children e)) as Hc.
    { rewrite Hf. by left. }
    apply list_elem_of_filter in Hc as [Ht Hc]. by exists c.
  - intros (c & -> & Hc) Hnil.
    by apply (filter_nil_not_elem_of _ _ c) in Hnil.
Qed.

Lemma in_first_child_tags t f cs :
  (∀ c, tag (f c).1 = tag c) →
  tag <$> (in_first_child t f cs).1 = tag <$> cs.
Proof.
  intros Htag. induction cs as [|c cs IH]; [done|]. cbn [in_first_child].
  destruct (decide (tag c = t)).
  - specialize (Htag c). destruct (f c) as [c1 w1]. csimpl in *. by rewrite Htag.
  - destruct (in_first_child t f cs) as [cs1 w]. csimpl in *. by rewrite IH.
Qed.

Lemma find_in_first_is_Some t t' f e :
  (∀ c, tag (f c).1 = tag c) →
  is_Some (find t (in_first t' f e).1) ↔ is_Some (find t e).
Proof.
  intros Htag. rewrite !find_is_Some, in_first_children.
  by rewrite in_first_child_tags.
Qed.

(** The two passes, run on their own result, give that result again. *)
Lemma passes_idempotent styles root r1 r2 :
  update_lexer_styles styles root = Returns r1 →
  update_global_styles styles r1.1 = Returns r2 →
  ∃ r1' r2',
    update_lexer_styles styles r2.1 = Returns r1' ∧
    update_global_styles styles r1'.1 = Returns r2' ∧
    r2'.1 = r2.1.
Proof.
  unfold update_lexer_styles, update_global_styles, get_lexer_styles,
    get_global_styles.
  destruct (find "LexerStyles" root) as [ls|] eqn:Hls; [|done].
  intros [= <-].
  set (F := in_each "LexerType" (in_each "WordsStyle" (apply_styles styles))).
  set (H := in_each "WidgetStyle" (apply_styles styles)).
  destruct (find "GlobalStyles" (in_first "LexerStyles" F root).1)
    as [gs|] eqn:Hgs; [|done].
  intros [= <-]. cbn [mbind outcome_bind fst].
  assert (∀ c, tag (F c).1 = tag c) as HFtag by (intros; apply in_each_tag).
  assert (∀ c, tag (H c).1 = tag c) as HHtag by (intros; apply in_each_tag).
  assert (∀ c, (F (F c).1).1 = (F c).1) as HFidem.
  { intros c. apply in_each_idem; [intros; apply in_each_tag|].
    intros lt. apply in_each_idem; [apply apply_styles_tag|].
    apply apply_styles_twice. }
  assert (∀ c, (H (H c).1).1 = (H c).1) as HHidem.
  { intros c. apply in_each_idem; [apply apply_styles_tag|].
    apply apply_styles_twice. }
  set (L1 := (in_first "LexerStyles" F root).1) in *.
  set (G1 := (in_first "GlobalStyles" H L1).1).
  assert (is_Some (find "LexerStyles" G1)) as [ls' Hls'].
  { unfold G1, L1. rewrite !find_in_first_is_Some by done. by rewrite Hls. }
  rewrite Hls'.
  assert (is_Some (find "GlobalStyles" (in_first "LexerStyles" F G1).1))
    as [gs' Hgs'].
  { rewrite find_in_first_is_Some by done. unfold G1.
    rewrite find_in_first_is_Some by done. by rewrite Hgs. }
  eexists _, _. split; [done|]. cbn [fst]. rewrite Hgs'.
  split; [done|]. cbn [fst]. unfold G1.
  rewrite (in_first_comm "LexerStyles" "GlobalStyles") by done.
  rewrite in_first_idem by done. unfold L1.
  by rewrite in_first_idem.
Qed.

End rebuild_more.

Section rebuild_runs.
Context {bytes : Type}.
Variable ET_parse : bytes → option Element.
Variable ET_write : Element → bytes.
Variable yaml_safe_load : bytes → option pyval.

(** Loading looks at nothing but the content of the file at the path. *)
Lemma load_styles_from_config_same_file path (w w' : world) :
  files w' !! path = files w !! path →
  (load_styles_from_config yaml_safe_load path w').1
  = (load_styles_from_config yaml_safe_load path w).1.
Proof.
  intros Hfile. unfold load_styles_from_config, io_bind, read_file.
  rewrite Hfile. destruct (files w !! path) as [b|]; [|done].
  by destruct (yaml_safe_load b).
Qed.

End rebuild_runs.


(** ** The audit, by the places of the leaves (C6) *)

Section audit_places.
Import StrOrder StrOrderFacts.

(** The leaves the auditor collects are the audited ones. *)
Lemma audited_elem_of lexer_styles leaf :
  leaf ∈ get_lexer_types lexer_styles ≫= get_words_styles ↔
  audited lexer_styles leaf.
Proof.
  rewrite list_elem_of_bind. unfold audited, child_at, get_lexer_types,
    get_words_styles, findall. split.
  - intros (lt & [Hleaf Hin]%list_elem_of_filter & [Hlt Hin']%list_elem_of_filter).
    apply list_elem_of_lookup in Hin as [k Hk].
    apply list_elem_of_lookup in Hin' as [j Hj].
    by exists j, k, lt.
  - intros (j & k & lt & [Hj Hlt] & [Hk Hleaf]).
    exists lt. split; apply list_elem_of_filter; split; try done;
      by eapply list_elem_of_lookup_2.
Qed.

Lemma audited_words_style_at root i lexer_styles leaf :
  first_at "LexerStyles" (children root) i lexer_styles →
  audited lexer_styles leaf →
  ∃ path, words_style_at root path leaf.
Proof.
  intros Hfirst (j & k & lt & Hlt & Hleaf).
  exists [i; j; k]. by exists i, j, k, lexer_styles, lt.
Qed.

(** C6. When every [WordsStyle] child of a [LexerType] child of the section
    has a [name], the missing style names are returned as the ascending
    list, without duplicates, of exactly the names of those leaves that no
    rule lists.  So a name that none of those leaves carries is never in the
    result, whatever else carries it; in a document whose first
    [LexerStyles] child is the section, every reported name sits on a leaf
    at a place root, [LexerStyles], [LexerType], [WordsStyle], which no
    [WidgetStyle] under [GlobalStyles] is. *)
Theorem missing_style_names_exact lexer_styles styles :
  (∀ leaf, audited lexer_styles leaf → is_Some (get_attr "name" leaf)) →
  ∃ l,
    get_distinct_missing_style_names lexer_styles styles
    = Returns (Some <$> l) ∧
    sorted_distinct l (λ n,
      (∃ leaf, audited lexer_styles leaf ∧ get_attr "name" leaf = Some n) ∧
      ¬ ∃ style, style ∈ styles ∧ n ∈ names style) ∧
    (∀ n, (∀ leaf, audited lexer_styles leaf → get_attr "name" leaf ≠ Some n) →
          n ∉ l) ∧
    ∀ root i n,
      first_at "LexerStyles" (children root) i lexer_styles → n ∈ l →
      ∃ path leaf,
        words_style_at root path leaf ∧ get_attr "name" leaf = Some n.
Proof.
  intros Hnamed.
  destruct (get_distinct_missing_style_names_named lexer_styles styles)
    as (l & Hl & Hs & Hm).
  { apply Forall_forall. intros leaf Hleaf. by apply Hnamed, audited_elem_of. }
  assert (∀ n, n ∈ l → ∃ leaf, audited lexer_styles leaf ∧
                               get_attr "name" leaf = Some n) as Hcarried.
  { intros n [(leaf & Hleaf & Hname) _]%Hm. exists leaf.
    by rewrite <- audited_elem_of. }
  exists l. split; [done|]. split; [split; [done|]|split].
  - intros n. rewrite Hm. split.
    + intros [(leaf & Hleaf & Hname) Hnot]. split; [|done].
      exists leaf. by rewrite <- audited_elem_of.
    + intros [(leaf & Hleaf & Hname) Hnot]. split; [|done].
      exists leaf. by rewrite audited_elem_of.
  - intros n Hnot Hin. destruct (Hcarried n Hin) as (leaf & Hleaf & Hname).
    by apply (Hnot leaf).
  - intros root i n Hfirst Hin.
    destruct (Hcarried n Hin) as (leaf & Hleaf & Hname).
    destruct (audited_words_style_at root i _ _ Hfirst Hleaf) as [path Hpath].
    by exists path, leaf.
Qed.

(** X9. When every [WordsStyle] child of a [LexerType] child of the section
    has a [name], the distinct style names come back as the strictly
    ascending list of exactly the names of those leaves; with no such leaf
    the list is empty. *)
Theorem distinct_style_names_exact lexer_styles :
  (∀ leaf, audited lexer_styles leaf → is_Some (get_attr "name" leaf)) →
  ∃ l, get_distinct_style_names lexer_styles = Returns (Some <$> l) ∧
       sorted_distinct l (λ n, ∃ leaf,
         audited lexer_styles leaf ∧ get_attr "name" leaf = Some n).
Proof.
  intros Hnamed.
  destruct (get_distinct_style_names_named lexer_styles) as (l & Hl & Hs & Hm).
  { apply Forall_forall. intros leaf Hleaf. by apply Hnamed, audited_elem_of. }
  exists l. split; [done|]. split; [done|]. intros n. rewrite Hm.
  split; intros (leaf & Hleaf & Hname); exists leaf;
    [by rewrite <- audited_elem_of|by rewrite audited_elem_of].
Qed.

End audit_places.

Section audit_places_examples.

(** A section with a [WordsStyle] outside any [LexerType], which the audit
    does not look at. *)
Lemma sample_audited leaf :
  audited (Sample.node "LexerStyles"
             [Sample.leaf "WordsStyle" "STRAY" "000000" "FFFFFF";
              Sample.node "LexerType" [Sample.keyword; Sample.comment]]) leaf →
  is_Some (get_attr "name" leaf).
Proof.
  intros (j & k & lt & [Hj Hlt] & [Hk Hleaf]).
  destruct j as [|[|j]]; simpl in Hj.
  - injection Hj as <-. discriminate Hlt.
  - injection Hj as <-. destruct k as [|[|k]]; simpl in Hk.
    + injection Hk as <-. by eexists.
    + injection Hk as <-. by eexists.
    + discriminate Hk.
  - discriminate Hj.
Qed.

Lemma missing_style_names_exact_witness :
  ∃ l,
    get_distinct_missing_style_names
      (Sample.node "LexerStyles"
         [Sample.leaf "WordsStyle" "STRAY" "000000" "FFFFFF";
          Sample.node "LexerType" [Sample.keyword; Sample.comment]])
      [mkStyle ["KEYWORD"] (Some "$iris") None]
    = Returns (Some <$> l) ∧
    l = ["COMMENT"].
Proof.
  destruct (missing_style_names_exact
              (Sample.node "LexerStyles"
                 [Sample.leaf "WordsStyle" "STRAY" "000000" "FFFFFF";
                  Sample.node "LexerType" [Sample.keyword; Sample.comment]])
              [mkStyle ["KEYWORD"] (Some "$iris") None])
    as (l & Hl & _).
  - exact sample_audited.
  - exists l. split; [exact Hl|].
    assert (Returns (Some <$> l) = Returns (Some <$> ["COMMENT"])) as Heq.
    { rewrite <- Hl. vm_compute. reflexivity. }
    injection Heq as Heq. exact (inj (fmap Some) _ _ Heq).
Defined.

Lemma distinct_style_names_exact_witness :
  ∃ l,
    get_distinct_style_names
      (Sample.node "LexerStyles"
         [Sample.leaf "WordsStyle" "STRAY" "000000" "FFFFFF";
          Sample.node "LexerType" [Sample.keyword; Sample.comment]])
    = Returns (Some <$> l) ∧
    l = ["COMMENT"; "KEYWORD"].
Proof.
  destruct (distinct_style_names_exact
              (Sample.node "LexerStyles"
                 [Sample.leaf "WordsStyle" "STRAY" "000000" "FFFFFF";
                  Sample.node "LexerType" [Sample.keyword; Sample.comment]]))
    as (l & Hl & _).
  - exact sample_audited.
  - exists l. split; [exact Hl|].
    assert (Returns (Some <$> l) = Returns (Some <$> ["COMMENT"; "KEYWORD"]))
      as Heq.
    { rewrite <- Hl. vm_compute. reflexivity. }
    injection Heq as Heq. exact (inj (fmap Some) _ _ Heq).
Defined.

End audit_places_examples.

(** ** Configurations of the annotated types *)

Section typed_more.
Context {bytes : Type}.
Variable yaml_safe_load : bytes → option pyval.

Lemma names_of_strings_iter names_arg :
  names_of_strings names_arg →
  names_arg = PNone ∨ ∃ ss, py_iter names_arg = Returns (PStr <$> ss).
Proof.
  intros [->|[[s ->]|[[l ->]|[d ->]]]]; [by left|right..].
  - exists ((λ c, String c "") <$> list_ascii_of_string s). simpl.
    by rewrite <- list_fmap_compose.
  - by exists l.
  - by exists (elements (dom d)).
Qed.

Lemma str_or_None_py_opt c : str_or_None c → ∃ o, c = py_opt o.
Proof. intros [->|[s ->]]; [by exists None|by exists (Some s)]. Qed.

(** Names given as a string or as a mapping are read as the list of the
    characters or of the keys. *)
Lemma Style_post_init_strings names_arg ss fg bg :
  truthy names_arg = true → py_iter names_arg = Returns (PStr <$> ss) →
  Style_post_init names_arg (py_opt fg) (py_opt bg) = new_Style ss fg bg.
Proof.
  intros Htruthy Hiter. unfold new_Style, Style_post_init. rewrite Htruthy.
  assert (truthy (py_strs ss) = true) as ->.
  { pose proof (truthy_iter_nonempty _ _ Htruthy Hiter). by destruct ss. }
  cbn [negb]. by rewrite Hiter.
Qed.

Lemma Style_post_init_typed names_arg fg bg :
  names_of_strings names_arg → str_or_None fg → str_or_None bg →
  (∃ style, Style_post_init names_arg fg bg = Returns style ∧
            constructed style) ∨
  (∃ msg, Style_post_init names_arg fg bg = Raises (ValueError msg)).
Proof.
  intros Hnames [fo ->]%str_or_None_py_opt [bo ->]%str_or_None_py_opt.
  destruct (truthy names_arg) eqn:Htruthy.
  2:{ right. unfold Style_post_init. rewrite Htruthy. by eexists. }
  destruct (names_of_strings_iter _ Hnames) as [->|[ss Hiter]]; [done|].
  rewrite (Style_post_init_strings _ ss) by done.
  destruct (new_Style_cases ss fo bo)
    as [[_ H]|[(_&_&_&H)|[(_&_&H)|[(_&_&_&H)|(_&_&_&_&l&H&_)]]]];
    [right; by eexists..|].
  left. eexists. split; [done|].
  eapply Style_post_init_Returns. exact H.
Qed.

(** X2. Given names that are strings (a sequence of them, the characters of
    one string, or the string keys of a mapping) or [None], and colours that
    are strings or [None], the constructor either raises [ValueError] or
    returns a rule
    with some name, strictly ascending names, some colour, and every colour
    empty or prefixed. *)
Theorem Style_post_init_constructed names_arg fg bg :
  names_of_strings names_arg → str_or_None fg → str_or_None bg →
  (∃ style, Style_post_init names_arg fg bg = Returns style ∧
            constructed style) ∨
  (∃ msg, Style_post_init names_arg fg bg = Raises (ValueError msg)).
Proof. apply Style_post_init_typed. Qed.

Lemma for_each_collect_outcomes {A B} (body : A → outcome B) (P : B → Prop) xs :
  Forall (λ x, body x ≠ Untyped ∧ ∀ y, body x = Returns y → P y) xs →
  for_each_collect body xs ≠ Untyped ∧
  ∀ ys, for_each_collect body xs = Returns ys → Forall P ys.
Proof.
  induction 1 as [|x xs [Hx HP] _ [IHu IHP]]; simpl.
  - split; [done|]. intros ys [= <-]. constructor.
  - destruct (body x) as [y| |]; [|done..]. cbn [mbind outcome_bind].
    destruct (for_each_collect body xs) as [ys'| |]; [|done..].
    cbn [mbind outcome_bind]. split; [done|]. intros ys [= <-].
    constructor; [by apply HP|by apply IHP].
Qed.

Lemma styles_of_config_typed data :
  (∀ item, record_of data item → typed_record item) →
  styles_of_config data ≠ Untyped ∧
  ∀ styles, styles_of_config data = Returns styles → Forall constructed styles.
Proof.
  intros Htyped. unfold styles_of_config.
  destruct data as [|s|l|d]; [done..|]. simpl.
  destruct (py_iter (default (PList []) (d !! "styles"))) as [items|e|] eqn:Hitems;
    cbn [mbind outcome_bind].
  2:{ by split. }
  2:{ by destruct (default (PList []) (d !! "styles")). }
  apply for_each_collect_outcomes.
  apply Forall_forall. intros item Hitem.
  assert (typed_record item) as Hrecord.
  { apply Htyped. by exists d, items. }
  destruct item as [|s|l|r]; [done..|]. simpl.
  destruct (Hrecord r eq_refl) as (Hn & Hf & Hb).
  destruct (Style_post_init_typed _ _ _ Hn Hf Hb)
    as [(style & -> & Hstyle)|[msg ->]]; [|done].
  split; [done|]. by intros y [= <-].
Qed.

(** X12. For a configuration whose records hold names that are strings (a
    sequence, one string, or a mapping) and colours that are strings or
    null, loading never leaves the annotated types, and every rule it
    returns has some name, strictly ascending names, some colour, and
    colours that are empty or prefixed. *)
Theorem loaded_rules_constructed path (w : world) b data :
  files w !! path = Some b → yaml_safe_load b = Some data →
  (∀ item, record_of data item → typed_record item) →
  let run := load_styles_from_config yaml_safe_load path w in
  run.1 ≠ Untyped ∧
  ∀ styles, run.1 = Returns styles → Forall constructed styles.
Proof.
  intros Hb Hdata Htyped run. subst run.
  rewrite (load_styles_from_config_run yaml_safe_load path w b data) by done.
  by apply styles_of_config_typed.
Qed.

(** What the writer stores is of the annotated types. *)
Lemma config_of_styles_typed rules item :
  record_of (config_of_styles rules) item → typed_record item.
Proof.
  intros (d & items & Hd & Hitems & Hitem).
  unfold config_of_styles in Hd. injection Hd as <-.
  rewrite lookup_insert_eq in Hitems. injection Hitems as <-.
  apply list_elem_of_fmap in Hitem as (style & -> & _).
  intros r Hr. unfold asdict in Hr. injection Hr as <-.
  rewrite lookup_insert_eq.
  rewrite lookup_insert_ne, lookup_insert_eq by done.
  rewrite !lookup_insert_ne, lookup_insert_eq by done. simpl.
  split; [right; right; left; by eexists|].
  split; [destruct (fgColor style)|destruct (bgColor style)]; simpl;
    first [by left|right; by eexists].
Qed.

End typed_more.

Section typed_examples.

Lemma Style_post_init_constructed_witness :
  (∃ style, Style_post_init (PStr "ba") (PStr "$iris") PNone = Returns style ∧
            constructed style) ∨
  (∃ msg, Style_post_init (PStr "ba") (PStr "$iris") PNone
          = Raises (ValueError msg)).
Proof.
  apply (Style_post_init_constructed (PStr "ba") (PStr "$iris") PNone).
  - right. left. exists "ba". reflexivity.
  - right. exists "$iris". reflexivity.
  - left. reflexivity.
Defined.

Lemma loaded_rules_constructed_witness :
  (load_styles_from_config Sample.yaml_safe_load "config.yaml"
     (Sample.world_with Sample.stylers)).1 ≠ Untyped ∧
  ∀ styles,
    (load_styles_from_config Sample.yaml_safe_load "config.yaml"
       (Sample.world_with Sample.stylers)).1 = Returns styles →
    Forall constructed styles.
Proof.
  apply (loaded_rules_constructed Sample.yaml_safe_load "config.yaml"
           (Sample.world_with Sample.stylers)
           (Sample.YamlFile (config_of_styles Sample.rules))
           (config_of_styles Sample.rules)).
  - vm_compute. reflexivity.
  - reflexivity.
  - exact (config_of_styles_typed Sample.rules).
Defined.

End typed_examples.

(** ** The builder on unmatched leaves and on several matching rules (C4, C9) *)

Section build_leaves.
Context {bytes : Type}.
Variable ET_parse : bytes → option Element.
Variable ET_write : Element → bytes.
Variable yaml_safe_load : bytes → option pyval.

Lemma unmatched_attrib styles e e' :
  attrib e' = attrib e → unmatched styles e → unmatched styles e'.
Proof. unfold unmatched, get_attr. by intros ->. Qed.

Lemma in_each_attrib t f parent : attrib (in_each t f parent).1 = attrib parent.
Proof. unfold in_each. by destruct (in_each_child _ _ _). Qed.

Lemma in_first_attrib t f parent : attrib (in_first t f parent).1 = attrib parent.
Proof. unfold in_first. by destruct (in_first_child _ _ _). Qed.

Lemma in_first_child_lookup t f cs i c :
  cs !! i = Some c →
  (in_first_child t f cs).1 !! i = Some c ∨
  (in_first_child t f cs).1 !! i = Some (f c).1.
Proof.
  revert i. induction cs as [|c0 cs IH]; intros i Hi; [done|].
  cbn [in_first_child]. destruct (decide (tag c0 = t)) as [Ht|Ht].
  - destruct (f c0) as [c1 w] eqn:Hf. destruct i as [|i]; [|by left].
    injection Hi as <-. right. by rewrite Hf.
  - specialize (IH (pred i)). destruct (in_first_child t f cs) as [cs1 w].
    destruct i as [|i]; [by left|]. by apply IH.
Qed.

Lemma keeps_unmatched_apply_styles styles :
  keeps_unmatched styles (λ c, (apply_styles styles c).1).
Proof.
  intros c [|i path] e Hdescend Hun.
  - injection Hdescend as ->. exists e.
    by rewrite apply_styles_unmatched.
  - exists e. split; [|done]. cbn [descend] in *.
    destruct (apply_styles_frame styles c) as (_ & _ & _ & Hchildren & _).
    by rewrite Hchildren.
Qed.

Lemma keeps_unmatched_in_each styles t f :
  keeps_unmatched styles (λ c, (f c).1) →
  keeps_unmatched styles (λ c, (in_each t f c).1).
Proof.
  intros Hf c [|i path] e Hdescend Hun.
  - injection Hdescend as <-. eexists. split; [done|].
    split; [apply in_each_tag|apply in_each_attrib].
  - cbn [descend] in *. rewrite in_each_children, in_each_child_lookup.
    destruct (children c !! i) as [ci|]; [|done]. simpl in *.
    destruct (decide (tag ci = t)); [by apply (Hf ci path e)|by exists e].
Qed.

Lemma keeps_unmatched_in_first styles t f :
  keeps_unmatched styles (λ c, (f c).1) →
  keeps_unmatched styles (λ c, (in_first t f c).1).
Proof.
  intros Hf c [|i path] e Hdescend Hun.
  - injection Hdescend as <-. eexists. split; [done|].
    split; [apply in_first_tag|apply in_first_attrib].
  - cbn [descend] in *. rewrite in_first_children.
    destruct (children c !! i) as [ci|] eqn:Hi; [|done]. simpl in Hdescend.
    destruct (in_first_child_lookup t f _ _ _ Hi) as [->| ->]; simpl;
      [by exists e|by apply (Hf ci path e)].
Qed.

(** Both passes together: an element no rule names, wherever it is in the
    document, has its tag and its attributes after the passes. *)
Lemma passes_keep_unmatched styles root r1 r2 :
  update_lexer_styles styles root = Returns r1 →
  update_global_styles styles r1.1 = Returns r2 →
  ∀ path e,
    descend path root = Some e → unmatched styles e →
    ∃ e', descend path r2.1 = Some e' ∧ tag e' = tag e ∧ attrib e' = attrib e.
Proof.
  unfold update_lexer_styles, update_global_styles, get_lexer_styles,
    get_global_styles.
  destruct (find "LexerStyles" root) as [ls|]; [|done]. intros [= <-].
  destruct (find "GlobalStyles" _) as [gs|]; [|done]. intros [= <-].
  intros path e Hdescend Hun.
  assert (keeps_unmatched styles
            (λ c, (in_first "LexerStyles"
                     (in_each "LexerType"
                        (in_each "WordsStyle" (apply_styles styles))) c).1))
    as Hlexer.
  { apply keeps_unmatched_in_first. do 2 apply keeps_unmatched_in_each.
    apply keeps_unmatched_apply_styles. }
  assert (keeps_unmatched styles
            (λ c, (in_first "GlobalStyles"
                     (in_each "WidgetStyle" (apply_styles styles)) c).1))
    as Hglobal.
  { apply keeps_unmatched_in_first. apply keeps_unmatched_in_each.
    apply keeps_unmatched_apply_styles. }
  destruct (Hlexer root path e Hdescend Hun)
    as (e1 & Hdescend1 & Htag1 & Hattrib1).
  destruct (Hglobal _ path e1 Hdescend1 (unmatched_attrib styles e e1 Hattrib1 Hun))
    as (e2 & Hdescend2 & Htag2 & Hattrib2).
  exists e2. split; [done|]. split; congruence.
Qed.

(** With both sections in the document the two passes return. *)
Lemma passes_return styles root lexer_styles global_styles :
  find "LexerStyles" root = Some lexer_styles →
  find "GlobalStyles" root = Some global_styles →
  ∃ r1 r2,
    update_lexer_styles styles root = Returns r1 ∧
    update_global_styles styles r1.1 = Returns r2.
Proof.
  intros Hls Hgs.
  pose proof (update_lexer_styles_returns styles root _ Hls) as H1.
  pose proof (find_global_after_lexer styles root _ H1) as Hgs1.
  rewrite Hgs in Hgs1.
  pose proof (update_global_styles_returns styles _ _ Hgs1) as H2.
  by eexists _, _.
Qed.

(** A run that returns after the passes returned has written their result. *)
Lemma create_or_update_template_written source target config (w : world)
    styles root r1 r2 :
  load_styles_from_config yaml_safe_load config w = (Returns styles, w) →
  parse_xml_file ET_parse source w = (Returns root, w) →
  update_lexer_styles styles root = Returns r1 →
  update_global_styles styles r1.1 = Returns r2 →
  files (create_or_update_template ET_parse ET_write yaml_safe_load
           source target config w).2
  = <[target := ET_write r2.1]> (files w).
Proof.
  intros Hload Hparse H1 H2.
  rewrite (create_or_update_template_run _ _ _ _ _ _ _ styles root Hload Hparse).
  rewrite H1. cbn zeta. by rewrite H2.
Qed.

(** C4. With the rules loaded and both sections in the parsed source, the
    two passes over the leaves return whatever the rules match.  In the
    document they leave, a visited [WordsStyle] or [WidgetStyle] leaf whose
    [name] is no name of any rule is as it was, and every element no rule
    names, wherever it is, has its tag and all its attributes.  A run that
    returns has written that document to the target. *)
Theorem build_unmatched_leaf_unchanged source target config (w : world)
    b styles root lexer_styles global_styles :
  load_styles_from_config yaml_safe_load config w = (Returns styles, w) →
  files w !! source = Some b → ET_parse b = Some root →
  find "LexerStyles" root = Some lexer_styles →
  find "GlobalStyles" root = Some global_styles →
  ∃ r1 r2,
    update_lexer_styles styles root = Returns r1 ∧
    update_global_styles styles r1.1 = Returns r2 ∧
    (∀ path leaf,
       words_style_at root path leaf ∨ widget_style_at root path leaf →
       unmatched styles leaf →
       descend path r2.1 = Some leaf) ∧
    (∀ path e,
       descend path root = Some e → unmatched styles e →
       ∃ e', descend path r2.1 = Some e' ∧
             tag e' = tag e ∧ attrib e' = attrib e) ∧
    let run := create_or_update_template ET_parse ET_write yaml_safe_load
                 source target config w in
    (run.1 = Returns () →
     files run.2 = <[target := ET_write r2.1]> (files w)).
Proof.
  intros Hload Hb Hroot Hls Hgs.
  destruct (passes_return styles root _ _ Hls Hgs) as (r1 & r2 & H1 & H2).
  exists r1, r2. split; [done|]. split; [done|]. split; [|split].
  - intros path leaf Hat Hun.
    by rewrite (styled_leaves styles root r1 r2 H1 H2 path leaf Hat),
      apply_styles_unmatched.
  - by apply (passes_keep_unmatched styles root r1 r2).
  - intros run _. subst run.
    apply (create_or_update_template_written _ _ _ _ styles root r1 r2);
      [done| |done..].
    by eapply parse_xml_file_run.
Qed.

(** C9. With the rules loaded and both sections in the parsed source, the
    two passes return, and in the document they leave, when several rules
    name the same visited leaf, each of the two colour attributes of the
    leaf has the colour of the last rule, in the order of the configuration,
    that names the leaf and carries that colour; what earlier rules set is
    overwritten.  A run that returns has written that document to the
    target. *)
Theorem build_last_matching_rule_wins source target config (w : world)
    b styles root lexer_styles global_styles :
  load_styles_from_config yaml_safe_load config w = (Returns styles, w) →
  files w !! source = Some b → ET_parse b = Some root →
  find "LexerStyles" root = Some lexer_styles →
  find "GlobalStyles" root = Some global_styles →
  ∃ r1 r2,
    update_lexer_styles styles root = Returns r1 ∧
    update_global_styles styles r1.1 = Returns r2 ∧
    (∀ path leaf n ch (pre post : list Style) style c,
       words_style_at root path leaf ∨ widget_style_at root path leaf →
       get_attr "name" leaf = Some n →
       styles = (pre ++ style :: post)%list →
       n ∈ names style → channel_color ch style = Some c →
       (∀ style', style' ∈ post → n ∈ names style' →
                  channel_color ch style' = None) →
       ∃ leaf', descend path r2.1 = Some leaf' ∧
                get_attr (channel_key ch) leaf' = Some c) ∧
    let run := create_or_update_template ET_parse ET_write yaml_safe_load
                 source target config w in
    (run.1 = Returns () →
     files run.2 = <[target := ET_write r2.1]> (files w)).
Proof.
  intros Hload Hb Hroot Hls Hgs.
  destruct (passes_return styles root _ _ Hls Hgs) as (r1 & r2 & H1 & H2).
  exists r1, r2. split; [done|]. split; [done|]. split.
  - intros path leaf n ch pre post style c Hat Hname -> Hn Hc Hpost.
    eexists. split; [by apply (styled_leaves _ root r1 r2 H1 H2)|].
    by apply (apply_styles_channel_last ch pre style post n c).
  - intros run _. subst run.
    apply (create_or_update_template_written _ _ _ _ styles root r1 r2);
      [done| |done..].
    by eapply parse_xml_file_run.
Qed.

(** The leaves the accessors return are at visited places. *)
Lemma widget_styles_at root global_styles leaf :
  find "GlobalStyles" root = Some global_styles →
  leaf ∈ get_widget_styles global_styles →
  ∃ path, widget_style_at root path leaf.
Proof.
  intros [i Hi]%find_first_at [Htag Hin]%list_elem_of_filter.
  apply list_elem_of_lookup in Hin as [k Hk].
  exists [i; k]. by exists i, k, global_styles.
Qed.

Lemma words_styles_at root lexer_styles leaf :
  find "LexerStyles" root = Some lexer_styles →
  leaf ∈ get_lexer_types lexer_styles ≫= get_words_styles →
  ∃ path, words_style_at root path leaf.
Proof.
  intros [i Hi]%find_first_at Hin%audited_elem_of.
  by apply (audited_words_style_at root i lexer_styles).
Qed.

(** X19. When no visited leaf is named by a rule, in particular when there
    are no rules, a run that returns has written the parsed source document
    itself. *)
Theorem build_no_match_identity source target config (w : world) styles root :
  load_styles_from_config yaml_safe_load config w = (Returns styles, w) →
  parse_xml_file ET_parse source w = (Returns root, w) →
  (∀ path leaf,
     words_style_at root path leaf ∨ widget_style_at root path leaf →
     unmatched styles leaf) →
  let run := create_or_update_template ET_parse ET_write yaml_safe_load
               source target config w in
  run.1 = Returns () →
  files run.2 = <[target := ET_write root]> (files w).
Proof.
  intros Hload Hparse Hun run Hret. subst run.
  rewrite (create_or_update_template_run _ _ _ _ _ _ _ styles root Hload Hparse)
    in Hret |- *.
  destruct (find "LexerStyles" root) as [ls|] eqn:Hls;
    [|by rewrite update_lexer_styles_raises in Hret].
  destruct (find "GlobalStyles" root) as [gs|] eqn:Hgs.
  2:{ pose proof (update_lexer_styles_returns styles root _ Hls) as H1.
      pose proof (find_global_after_lexer styles root _ H1) as Hgs1.
      rewrite Hgs in Hgs1. rewrite H1 in Hret. cbn zeta in Hret.
      by rewrite update_global_styles_raises in Hret. }
  destruct (passes_no_match styles root ls gs) as (w1 & w2 & H1 & H2).
  - unfold get_lexer_styles. by rewrite Hls.
  - unfold get_global_styles. by rewrite Hgs.
  - intros leaf Hleaf.
    destruct (words_styles_at root ls leaf Hls Hleaf) as [path Hat]. eauto.
  - intros leaf Hleaf.
    destruct (widget_styles_at root gs leaf Hgs Hleaf) as [path Hat]. eauto.
  - rewrite H1. cbn zeta. cbn [fst]. by rewrite H2.
Qed.

(** X26. When a run has returned, the parser reads back the document it
    wrote, and the configuration file still has its content, building again
    with the template as the source, if it returns, leaves every file as it
    is: the rules have nothing more to change. *)
Theorem build_again_same source target config (w : world) styles root r1 r2 :
  load_styles_from_config yaml_safe_load config w = (Returns styles, w) →
  parse_xml_file ET_parse source w = (Returns root, w) →
  update_lexer_styles styles root = Returns r1 →
  update_global_styles styles r1.1 = Returns r2 →
  let run := create_or_update_template ET_parse ET_write yaml_safe_load
               source target config w in
  run.1 = Returns () →
  ET_parse (ET_write r2.1) = Some r2.1 →
  files run.2 !! config = files w !! config →
  let again := create_or_update_template ET_parse ET_write yaml_safe_load
                 target target config run.2 in
  again.1 = Returns () →
  files again.2 = files run.2.
Proof.
  intros Hload Hparse H1 H2 run _ Hxml Hconfig again _. subst again.
  assert (files run.2 = <[target := ET_write r2.1]> (files w)) as Hfiles.
  { by apply (create_or_update_template_written _ _ _ _ styles root r1 r2). }
  generalize dependent run. intros [o w1]. cbn [fst snd]. intros Hconfig Hfiles.
  destruct (passes_idempotent styles root r1 r2 H1 H2)
    as (r1' & r2' & H1' & H2' & Hsame).
  assert (load_styles_from_config yaml_safe_load config w1 = (Returns styles, w1))
    as Hload1.
  { apply injective_projections; [|apply load_styles_from_config_world].
    rewrite (load_styles_from_config_same_file yaml_safe_load config w w1)
      by done.
    by rewrite Hload. }
  assert (parse_xml_file ET_parse target w1 = (Returns r2.1, w1)) as Hparse1.
  { apply (parse_xml_file_run ET_parse target w1 (ET_write r2.1)); [|done].
    rewrite Hfiles. apply lookup_insert_eq. }
  rewrite (create_or_update_template_written _ _ _ _ styles r2.1 r1' r2')
    by done.
  rewrite Hsame, Hfiles. apply insert_insert_eq.
Qed.

End build_leaves.

Section build_leaves_examples.

Lemma build_unmatched_leaf_unchanged_witness :
  ∃ out,
    descend [0; 0; 1] out = Some Sample.comment ∧
    files (create_or_update_template Sample.ET_parse Sample.ET_write
             Sample.yaml_safe_load "stylers.xml" "template.xml" "config.yaml"
             (Sample.world_with Sample.stylers)).2
    = <["template.xml" := Sample.ET_write out]>
        (files (Sample.world_with Sample.stylers)).
Proof.
  destruct (build_unmatched_leaf_unchanged Sample.ET_parse Sample.ET_write
              Sample.yaml_safe_load "stylers.xml" "template.xml" "config.yaml"
              (Sample.world_with Sample.stylers)
              (Sample.XmlFile Sample.stylers) Sample.rules Sample.stylers
              Sample.lexer_styles Sample.global_styles)
    as (r1 & r2 & _ & _ & Hleaves & _ & Hrun).
  - vm_compute. reflexivity.
  - vm_compute. reflexivity.
  - reflexivity.
  - vm_compute. reflexivity.
  - vm_compute. reflexivity.
  - exists r2.1. split.
    + apply Hleaves;
        [left; exact sample_comment_at|exact sample_comment_unmatched].
    + apply Hrun. vm_compute. reflexivity.
Defined.

Lemma build_last_matching_rule_wins_witness :
  ∃ out leaf',
    descend [0; 0; 0] out = Some leaf' ∧
    get_attr "bgColor" leaf' = Some "$base" ∧
    files (create_or_update_template Sample.ET_parse Sample.ET_write
             Sample.yaml_safe_load "stylers.xml" "template.xml" "config.yaml"
             (Sample.world_with Sample.stylers)).2
    = <["template.xml" := Sample.ET_write out]>
        (files (Sample.world_with Sample.stylers)).
Proof.
  destruct (build_last_matching_rule_wins Sample.ET_parse Sample.ET_write
              Sample.yaml_safe_load "stylers.xml" "template.xml" "config.yaml"
              (Sample.world_with Sample.stylers)
              (Sample.XmlFile Sample.stylers) Sample.rules Sample.stylers
              Sample.lexer_styles Sample.global_styles)
    as (r1 & r2 & _ & _ & Hlast & Hrun).
  - vm_compute. reflexivity.
  - vm_compute. reflexivity.
  - reflexivity.
  - vm_compute. reflexivity.
  - vm_compute. reflexivity.
  - destruct (Hlast [0; 0; 0] Sample.keyword "KEYWORD" Bg []
                [mkStyle ["Default Style"; "KEYWORD"] (Some "$pine") None]
                (mkStyle ["KEYWORD"] (Some "$iris") (Some "$base"))
                "$base")
      as (leaf' & Hleaf' & Hbg).
    + left. exact sample_keyword_at.
    + vm_compute. reflexivity.
    + reflexivity.
    + apply elem_of_cons. left. reflexivity.
    + reflexivity.
    + clear. intros style' Hstyle' _.
      apply elem_of_cons in Hstyle' as [->|Hstyle']; [reflexivity|].
      apply not_elem_of_nil in Hstyle'. destruct Hstyle'.
    + exists r2.1, leaf'. split; [exact Hleaf'|]. split; [exact Hbg|].
      apply Hrun. vm_compute. reflexivity.
Defined.

Lemma build_no_match_identity_witness :
  files (create_or_update_template Sample.ET_parse Sample.ET_write
           Sample.yaml_safe_load "stylers.xml" "template.xml" "config.yaml"
           Sample2.world_no_rules).2
  = <["template.xml" := Sample.ET_write Sample.stylers]>
      (files Sample2.world_no_rules).
Proof.
  apply (build_no_match_identity Sample.ET_parse Sample.ET_write
           Sample.yaml_safe_load "stylers.xml" "template.xml" "config.yaml"
           Sample2.world_no_rules [] Sample.stylers).
  - vm_compute. reflexivity.
  - vm_compute. reflexivity.
  - intros path leaf _. exact (unmatched_no_rules leaf).
  - vm_compute. reflexivity.
Defined.

Lemma build_again_same_witness :
  let run := create_or_update_template Sample.ET_parse Sample.ET_write
               Sample.yaml_safe_load "stylers.xml" "template.xml" "config.yaml"
               (Sample.world_with Sample.stylers) in
  let again := create_or_update_template Sample.ET_parse Sample.ET_write
                 Sample.yaml_safe_load "template.xml" "template.xml"
                 "config.yaml" run.2 in
  files again.2 = files run.2.
Proof.
  eapply (build_again_same Sample.ET_parse Sample.ET_write Sample.yaml_safe_load
            "stylers.xml" "template.xml" "config.yaml"
            (Sample.world_with Sample.stylers) Sample.rules Sample.stylers).
  - vm_compute. reflexivity.
  - vm_compute. reflexivity.
  - vm_compute. reflexivity.
  - vm_compute. reflexivity.
  - vm_compute. reflexivity.
  - reflexivity.
  - vm_compute. reflexivity.
  - vm_compute. reflexivity.
Defined.

End build_leaves_examples.
